(** * imessage-ai: the web client and the timestamp conversion, verified

    A shallow embedding of the TypeScript pages under [web/src/app]
    ([page.tsx], [search/page.tsx], [conversations/page.tsx]) and of the
    [chat.db] date conversion given in [PRD.md], with the properties of the
    design specification stated and settled over it.

    Conventions of the embedding.
    - A JavaScript string is its sequence of UTF-16 code units ([jsstring]).
    - A React component is its hook state (a record) together with the
      list of fetches it has issued and that have not settled yet.  An event
      handler is a function on that pair.  React flushes the state updates
      of one handler run (and of one promise continuation) as one commit, and
      every handler run reads the last committed state.
    - An [async] function is split at its [await]: the part before it is the
      handler, the part after it is the continuation run when the fetch
      settles.  [await fetch(...)] and the [await response.json()] that
      follows it are one step: the code between them touches no state.
    - A built-in that can throw returns an [option] or a [completion].
    - The limits of the engine are those of V8 on a 64-bit platform
      (Chrome, Node).  They are modelled where a page can reach them with
      what it is given: in [highlightQuery], which compiles a pattern as
      long as the query and builds a string up to forty times as long as
      the text. *)

From Stdlib Require Import List NArith ZArith Bool Arith Lia String Ascii.
Import ListNotations.

Set Implicit Arguments.
Set Warnings "-register-all".

(* ===================================================================== *)
(** ** JavaScript strings and the built-ins the pages use *)
(* ===================================================================== *)

Module JS.

Local Open Scope N_scope.

(** A string value: a finite sequence of 16-bit code units. *)
Definition jsstring := list N.

(** An ASCII literal of the source as a [jsstring]. *)
Definition lit (s : string) : jsstring :=
  List.map N_of_ascii (list_ascii_of_string s).

Definition code_unit_eqb (a b : N) : bool := N.eqb a b.

Fixpoint jsstring_eqb (a b : jsstring) : bool :=
  match a, b with
  | [], [] => true
  | x :: a', y :: b' => N.eqb x y && jsstring_eqb a' b'
  | _, _ => false
  end.

(** ECMAScript LineTerminator: LF, CR, LS, PS. *)
Definition is_line_terminator (c : N) : bool :=
  (c =? 10) || (c =? 13) || (c =? 8232) || (c =? 8233).

(** ECMAScript WhiteSpace: TAB, VT, FF, SP, NBSP, ZWNBSP and the
    category Zs. *)
Definition is_white_space (c : N) : bool :=
  (c =? 9) || (c =? 11) || (c =? 12) || (c =? 32) || (c =? 160)
  || (c =? 5760) || ((8192 <=? c) && (c <=? 8202))
  || (c =? 8239) || (c =? 8287) || (c =? 12288) || (c =? 65279).

(** What [String.prototype.trim] strips. *)
Definition is_trimmable (c : N) : bool :=
  is_white_space c || is_line_terminator c.

Fixpoint trimStart (s : jsstring) : jsstring :=
  match s with
  | [] => []
  | c :: s' => if is_trimmable c then trimStart s' else s
  end.

Definition trimEnd (s : jsstring) : jsstring :=
  rev (trimStart (rev s)).

(** [s.trim()] *)
Definition trim (s : jsstring) : jsstring := trimEnd (trimStart s).

(** Truthiness of a string: the empty string is the only falsy one. *)
Definition truthy (s : jsstring) : bool :=
  match s with [] => false | _ :: _ => true end.

(** [a.slice(start)] of an array: a negative [start] counts from the end,
    and both ends are clamped to the array. *)
Definition slice_from {A : Type} (start : Z) (a : list A) : list A :=
  let len := Z.of_nat (List.length a) in
  let k := if (start <? 0)%Z then Z.max (len + start) 0
           else Z.min start len in
  skipn (Z.to_nat k) a.

(** Result of an operation that may throw. *)
Inductive JsError := SyntaxError | URIError | RangeError.

Inductive completion (A : Type) :=
| Normal (a : A)
| Throw (e : JsError).
Arguments Normal {A} a.
Arguments Throw {A} e.

(** The longest string the engine holds, [String::kMaxLength]:
    [2^29 - 24] code units. *)
Definition max_string_length : N := 536870888.

Definition fits (s : jsstring) : bool :=
  N.of_nat (List.length s) <=? max_string_length.

(** The string an operation has built, as the value it returns: a
    string longer than the engine holds is a RangeError ("Invalid string
    length"). *)
Definition new_string (s : jsstring) : completion jsstring :=
  if fits s then Normal s else Throw RangeError.

(** *** [encodeURIComponent] *)

Definition is_ascii_alnum (c : N) : bool :=
  ((48 <=? c) && (c <=? 57)) || ((65 <=? c) && (c <=? 90))
  || ((97 <=? c) && (c <=? 122)).

(** The unreserved set of [encodeURIComponent]: letters, digits and
    [- _ . ! ~ * ' ( )]. *)
Definition is_uri_unreserved (c : N) : bool :=
  is_ascii_alnum c
  || (c =? 45) || (c =? 95) || (c =? 46) || (c =? 33) || (c =? 126)
  || (c =? 42) || (c =? 39) || (c =? 40) || (c =? 41).

Definition hex_digit (d : N) : N :=
  if d <? 10 then 48 + d else 55 + d.

(** ["%XX"] for one octet. *)
Definition percent_octet (b : N) : jsstring :=
  [37; hex_digit (b / 16); hex_digit (b mod 16)].

(** The UTF-8 octets of a code point. *)
Definition utf8_octets (v : N) : list N :=
  if v <? 128 then [v]
  else if v <? 2048 then [192 + v / 64; 128 + v mod 64]
  else if v <? 65536 then
    [224 + v / 4096; 128 + (v / 64) mod 64; 128 + v mod 64]
  else
    [240 + v / 262144; 128 + (v / 4096) mod 64;
     128 + (v / 64) mod 64; 128 + v mod 64].

Definition is_high_surrogate (c : N) : bool := (55296 <=? c) && (c <=? 56319).
Definition is_low_surrogate (c : N) : bool := (56320 <=? c) && (c <=? 57343).

Definition percent_encode (v : N) : jsstring :=
  flat_map percent_octet (utf8_octets v).

(** [encodeURIComponent(s)]; [None] is the URIError thrown at a lone
    surrogate. *)
Fixpoint encodeURIComponent (s : jsstring) : option jsstring :=
  match s with
  | [] => Some []
  | c :: s' =>
    if is_uri_unreserved c then option_map (cons c) (encodeURIComponent s')
    else if is_low_surrogate c then None
    else if is_high_surrogate c then
      match s' with
      | [] => None
      | d :: s'' =>
        if is_low_surrogate d then
          option_map
            (app (percent_encode ((c - 55296) * 1024 + (d - 56320) + 65536)))
            (encodeURIComponent s'')
        else None
      end
    else option_map (app (percent_encode c)) (encodeURIComponent s')
  end.

(** *** Numbers in template literals *)

Fixpoint uint_chars (u : Decimal.uint) : jsstring :=
  match u with
  | Decimal.Nil => []
  | Decimal.D0 u' => 48 :: uint_chars u'
  | Decimal.D1 u' => 49 :: uint_chars u'
  | Decimal.D2 u' => 50 :: uint_chars u'
  | Decimal.D3 u' => 51 :: uint_chars u'
  | Decimal.D4 u' => 52 :: uint_chars u'
  | Decimal.D5 u' => 53 :: uint_chars u'
  | Decimal.D6 u' => 54 :: uint_chars u'
  | Decimal.D7 u' => 55 :: uint_chars u'
  | Decimal.D8 u' => 56 :: uint_chars u'
  | Decimal.D9 u' => 57 :: uint_chars u'
  end.

(** The string of an integer-valued number below 10^21 in magnitude, as
    a template literal shows it: decimal digits after an optional minus
    sign. *)
Definition integer_to_string (z : Z) : jsstring :=
  match Z.to_int z with
  | Decimal.Pos u => uint_chars u
  | Decimal.Neg u => 45 :: uint_chars u
  end.

(** *** Vocabulary of the properties *)

(** No lone surrogate: every high surrogate is followed by a low one and
    every low one follows a high one ([String.prototype.isWellFormed]). *)
Fixpoint well_formed (s : jsstring) : bool :=
  match s with
  | [] => true
  | c :: s' =>
    if is_high_surrogate c then
      match s' with
      | d :: s'' => is_low_surrogate d && well_formed s''
      | [] => false
      end
    else if is_low_surrogate c then false
    else well_formed s'
  end.

(** A code unit that [encodeURIComponent] can put out: an unreserved
    character or the percent sign. *)
Definition is_url_safe (c : N) : bool := is_uri_unreserved c || (c =? 37).

(** The value of a hexadecimal digit among [0-9A-F]. *)
Definition hex_value (c : N) : N := if c <? 58 then c - 48 else c - 55.

(** The octet of a leading ["%XX"]. *)
Definition read_octet (e : jsstring) : option (N * jsstring) :=
  match e with
  | p :: h1 :: h2 :: rest =>
    if p =? 37 then Some (16 * hex_value h1 + hex_value h2, rest) else None
  | _ => None
  end.

(** Reading back one escape sequence or plain character: the code
    units it stands for, and the rest. *)
Definition decode_unit (e : jsstring) : option (jsstring * jsstring) :=
  match e with
  | [] => None
  | c :: rest =>
    if c =? 37 then
      match read_octet e with
      | None => None
      | Some (b1, r1) =>
        if b1 <? 128 then Some ([b1], r1)
        else
          match read_octet r1 with
          | None => None
          | Some (b2, r2) =>
            if b1 <? 224 then Some ([(b1 - 192) * 64 + (b2 - 128)], r2)
            else
              match read_octet r2 with
              | None => None
              | Some (b3, r3) =>
                if b1 <? 240 then
                  Some ([(b1 - 224) * 4096 + (b2 - 128) * 64 + (b3 - 128)], r3)
                else
                  match read_octet r3 with
                  | None => None
                  | Some (b4, r4) =>
                    let v := (b1 - 240) * 262144 + (b2 - 128) * 4096
                             + (b3 - 128) * 64 + (b4 - 128) in
                    Some ([55296 + (v - 65536) / 1024;
                           56320 + (v - 65536) mod 1024], r4)
                  end
              end
          end
      end
    else Some ([c], rest)
  end.

(** Reading back what [encodeURIComponent] has put out; [fuel] above
    the length of the input is enough. *)
Fixpoint decode (fuel : nat) (e : jsstring) : option jsstring :=
  match fuel with
  | O => None
  | S f =>
    match e with
    | [] => Some []
    | _ :: _ =>
      match decode_unit e with
      | Some (u, rest) => option_map (app u) (decode f rest)
      | None => None
      end
    end
  end.

(** The pieces of [s] between the occurrences of [sep]. *)
Fixpoint split_on (sep : N) (s : jsstring) : list jsstring :=
  match s with
  | [] => [[]]
  | c :: s' =>
    if c =? sep then [] :: split_on sep s'
    else
      match split_on sep s' with
      | piece :: pieces => (c :: piece) :: pieces
      | [] => [[c]]
      end
  end.

(** What follows the first occurrence of [sep] in [s]. *)
Fixpoint after_first (sep : N) (s : jsstring) : jsstring :=
  match s with
  | [] => []
  | c :: s' => if c =? sep then s' else after_first sep s'
  end.

End JS.

(* ===================================================================== *)
(** ** HTTP requests and how a fetch settles *)
(* ===================================================================== *)

Module Http.
Import JS.

Inductive Method := GET | POST.

(** How [await fetch(...)] followed by [await response.json()] ends, for
    a body of type [Body]:
    - [NetworkError]: [fetch] rejects;
    - [Response ok None]: a response whose body is not the JSON expected,
      [response.json()] rejects;
    - [Response ok (Some b)]: a response with status flag [ok] and body [b]. *)
Inductive Outcome (Body : Type) :=
| NetworkError
| Response (ok : bool) (body : option Body).
Arguments NetworkError {Body}.
Arguments Response {Body} ok body.

(** The value of [data] reached by the [try] block, when it is reached:
    [response.ok] holds and the body parses. *)
Definition try_data {Body : Type} (o : Outcome Body) : option Body :=
  match o with
  | Response true (Some b) => Some b
  | _ => None
  end.

Definition origin : jsstring := lit "http://localhost:8000".

End Http.

(* ===================================================================== *)
(** ** A small virtual DOM, for what a component renders *)
(* ===================================================================== *)

Module VDom.
Import JS.

Inductive vnode :=
| Elem (tag : string) (className : string) (children : list vnode)
| Text (s : jsstring).


End VDom.

(* ===================================================================== *)
(** ** [web/src/app/page.tsx]: the chat page *)
(* ===================================================================== *)

Module ChatPage.
Import JS Http VDom.

Inductive Role := user | assistant.

Record Source := {
  sender : jsstring;
  date : jsstring;
  conversation : jsstring
}.

(** [interface Message]; an absent [sources] is [None]. *)
Record Message := {
  role : Role;
  content : jsstring;
  sources : option (list Source)
}.

(** The three [useState] hooks of [ChatPage]. *)
Record State := {
  messages : list Message;
  input : jsstring;
  isLoading : bool
}.

(** The JSON body of [POST /chat], field by field. *)
Record ChatBody := {
  query : jsstring;
  conversation_history : list Message
}.

Record Request := {
  method : Method;
  url : jsstring;
  headers : list (jsstring * jsstring);
  body : ChatBody
}.

(** The fields of the response body that [sendMessage] reads:
    [data.response] and [data.sources]. *)
Record ChatData := {
  response : jsstring;
  data_sources : option (list Source)
}.

(** The component and the fetches it has issued that are still pending. *)
Record Page := {
  state : State;
  pending : list Request
}.

Definition initial : Page :=
  {| state := {| messages := []; input := []; isLoading := false |};
     pending := [] |}.

Definition error_text : jsstring :=
  lit "Sorry, I encountered an error. Make sure the FastAPI server is running on port 8000.".

(** The guard of line 30: [!input.trim() || isLoading]. *)
Definition send_blocked (st : State) : bool :=
  negb (truthy (trim (input st))) || isLoading st.

(** [sendMessage], up to the [await fetch(...)]. *)
Definition sendMessage (p : Page) : Page :=
  let st := state p in
  if send_blocked st then p
  else
    let userMessage := trim (input st) in
    {| state :=
         {| messages :=
              messages st
              ++ [{| role := user; content := userMessage; sources := None |}];
            input := [];
            isLoading := true |};
       pending :=
         pending p
         ++ [{| method := POST;
                url := origin ++ lit "/chat";
                headers := [(lit "Content-Type", lit "application/json")];
                body := {| query := userMessage;
                           conversation_history :=
                             slice_from (-10) (messages st) |} |}] |}.

(** The assistant message appended when the fetch has settled: the [try]
    block's on a response that is [ok] and parses, the [catch] block's
    otherwise. *)
Definition reply (o : Outcome ChatData) : Message :=
  match try_data o with
  | Some data =>
    {| role := assistant; content := response data;
       sources := data_sources data |}
  | None =>
    {| role := assistant; content := error_text; sources := None |}
  end.

(** [sendMessage], from the [await] on: the continuation of the [i]-th
    pending fetch, run when that fetch settles with [o].  Both
    [setMessages] calls are functional updates, so they act on the
    state at the time the continuation runs; [finally] clears
    [isLoading]. *)
Definition settle (i : nat) (o : Outcome ChatData) (p : Page) : Page :=
  match nth_error (pending p) i with
  | None => p
  | Some _ =>
    let st := state p in
    {| state :=
         {| messages := messages st ++ [reply o];
            input := input st;
            isLoading := false |};
       pending := firstn i (pending p) ++ skipn (S i) (pending p) |}
  end.

(** [onChange] of the textarea: [setInput(e.target.value)]. *)
Definition onChange (v : jsstring) (p : Page) : Page :=
  {| state := {| messages := messages (state p);
                 input := v;
                 isLoading := isLoading (state p) |};
     pending := pending p |}.

(** [handleKeyPress]: Enter without Shift sends. *)
Definition handleKeyPress (key : jsstring) (shiftKey : bool) (p : Page) : Page :=
  if jsstring_eqb key (lit "Enter") && negb shiftKey then sendMessage p
  else p.

Inductive Event :=
| Change (v : jsstring)
| KeyPress (key : jsstring) (shiftKey : bool)
| ClickSend
| Settle (i : nat) (o : Outcome ChatData).

Definition step (p : Page) (e : Event) : Page :=
  match e with
  | Change v => onChange v p
  | KeyPress k s => handleKeyPress k s p
  | ClickSend => sendMessage p
  | Settle i o => settle i o p
  end.

(** The page after a sequence of events. *)
Definition run (p : Page) (es : list Event) : Page := fold_left step es p.

(** Every committed page along a sequence of events, the start included. *)
Fixpoint commits (p : Page) (es : list Event) : list Page :=
  match es with
  | [] => [p]
  | e :: es' => p :: commits (step p e) es'
  end.

Definition reachable (p : Page) : Prop := exists es, p = run initial es.

(** One whole turn: a send, then the settling of its fetch. *)
Definition turn (o : Outcome ChatData) (p : Page) : Page :=
  let p' := sendMessage p in
  settle (List.length (pending p') - 1) o p'.

(** *** Rendering of one message (lines 96-120) *)

Definition bullet : jsstring := [32%N; 8226%N; 32%N].

Definition renderSource (s : Source) : vnode :=
  Elem "div" "text-xs text-gray-500"
    [Elem "strong" "" [Text (sender s)];
     Text bullet; Text (date s);
     Text bullet; Text (conversation s)].

(** [{message.sources && message.sources.length > 0 && (...)}]: nothing
    when [sources] is absent or empty. *)
Definition renderSources (m : Message) : list vnode :=
  match sources m with
  | Some (s :: rest) =>
    [Elem "div" "mt-3 pt-3 border-t border-gray-200"
       [Elem "p" "text-xs font-medium text-gray-600 mb-1"
          [Text (lit "Sources:")];
        Elem "div" "space-y-1" (List.map renderSource (s :: rest))]]
  | _ => []
  end.

Definition bubble_class (r : Role) : string :=
  match r with
  | user => "max-w-3xl rounded-lg px-4 py-2 bg-blue-500 text-white"
  | assistant =>
    "max-w-3xl rounded-lg px-4 py-2 bg-white text-gray-900 border border-gray-200"
  end.

Definition renderMessage (m : Message) : vnode :=
  Elem "div"
    (match role m with user => "flex justify-end"
                     | assistant => "flex justify-start" end)
    [Elem "div" (bubble_class (role m))
       (Elem "p" "whitespace-pre-wrap" [Text (content m)]
        :: renderSources m)].


(** *** The input row (lines 137-156) *)

(** What the textarea and the Send button are given: the value shown,
    and whether each is disabled. *)
Record Controls := {
  textarea_value : jsstring;
  textarea_disabled : bool;
  button_disabled : bool
}.

Definition controls (st : State) : Controls :=
  {| textarea_value := input st;
     textarea_disabled := isLoading st;
     button_disabled := negb (truthy (trim (input st))) || isLoading st |}.

(** *** The messages area (lines 79-135) *)

(** The hint shown while there is no message, one bubble per message, and
    the three bouncing dots shown while loading. *)
Record MessagesArea := {
  hint_shown : bool;
  bubbles : list vnode;
  dots_shown : bool
}.

Definition messagesArea (st : State) : MessagesArea :=
  {| hint_shown := Nat.eqb (List.length (messages st)) 0;
     bubbles := List.map renderMessage (messages st);
     dots_shown := isLoading st |}.

(** *** Vocabulary of the properties *)

Definition flip (r : Role) : Role :=
  match r with user => assistant | assistant => user end.

Definition role_eqb (a b : Role) : bool :=
  match a, b with
  | user, user | assistant, assistant => true
  | _, _ => false
  end.

(** The roles of [ms] are [first], [flip first], [first], ... *)
Fixpoint alternates (first : Role) (ms : list Message) : bool :=
  match ms with
  | [] => true
  | m :: ms' => role_eqb (role m) first && alternates (flip first) ms'
  end.

(** The user message that a send appends. *)
Definition question (p : Page) : Message :=
  {| role := user; content := trim (input (state p)); sources := None |}.

(** [a] is a non-empty proper prefix of [b]. *)
Fixpoint proper_prefix (a b : jsstring) : bool :=
  match a, b with
  | [], _ => false
  | [x], y :: _ :: _ => N.eqb x y
  | x :: a', y :: b' => N.eqb x y && proper_prefix a' b'
  | _ :: _, [] => false
  end.

(** The page shows a part of [answer]: its last message is an assistant
    message holding a non-empty proper prefix of it. *)
Definition shows_partial_answer (answer : jsstring) (p : Page) : bool :=
  match rev (messages (state p)) with
  | m :: _ => role_eqb (role m) assistant && proper_prefix (content m) answer
  | [] => false
  end.

(** The invariant of the page: roles alternate from [user]; while idle
    nothing is pending and every question has its reply, while loading
    exactly one fetch is pending and the last question awaits its reply. *)
Definition consistent (p : Page) : Prop :=
  alternates user (messages (state p)) = true
  /\ (if isLoading (state p)
      then List.length (pending p) = 1
           /\ Nat.odd (List.length (messages (state p))) = true
      else pending p = []
           /\ Nat.even (List.length (messages (state p))) = true).

End ChatPage.

(* ===================================================================== *)
(** ** Regular expressions: [new RegExp], [String.prototype.replace] *)
(* ===================================================================== *)

(** The pattern language is the ECMAScript grammar without the [u] flag
    and without the web-compatibility extensions of Annex B and later
    additions (named groups, lookbehind): [parse_pattern] accepts a pattern
    only if every ECMAScript engine accepts it, with the meaning given to
    it here.  [None] stands for the SyntaxError of the constructor.  The
    matcher follows the continuation-passing matcher of the language
    specification (section "Pattern Semantics").  The constructor only
    parses: the engine compiles the pattern when it first executes it, and
    the compiler has a size limit of its own ([too_large]). *)

Module RegExp.
Import JS.

Local Open Scope N_scope.

(** SyntaxCharacter: [^ $ \ . * + ? ( ) [ ] { } |]. *)
Definition is_syntax_char (c : N) : bool :=
  (c =? 94) || (c =? 36) || (c =? 92) || (c =? 46) || (c =? 42)
  || (c =? 43) || (c =? 63) || (c =? 40) || (c =? 41) || (c =? 91)
  || (c =? 93) || (c =? 123) || (c =? 125) || (c =? 124).

Definition is_digit (c : N) : bool := (48 <=? c) && (c <=? 57).

Definition is_ascii_letter (c : N) : bool :=
  ((65 <=? c) && (c <=? 90)) || ((97 <=? c) && (c <=? 122)).

(** [\w]: letters, digits and the underscore. *)
Definition is_word_char (c : N) : bool :=
  is_ascii_letter c || is_digit c || (c =? 95).

Inductive class_item :=
| CChar (c : N)
| CRange (lo hi : N)
| CDigit (negated : bool)
| CSpace (negated : bool)
| CWord (negated : bool).

Inductive regex :=
| Empty
| Char (c : N)
| AnyChar
| Class (negated : bool) (items : list class_item)
| Seq (r1 r2 : regex)
| Alt (r1 r2 : regex)
| Group (index : nat) (r : regex)
| Repeat (min : nat) (max : option nat) (greedy : bool) (r : regex)
| LineStart
| LineEnd
| WordBoundary (negated : bool)
| Lookahead (negated : bool) (r : regex)
| Backref (n : nat).

(** *** Parsing a pattern *)

Fixpoint read_digits (p : list N) (acc : nat) : nat * list N :=
  match p with
  | c :: p' =>
    if is_digit c then read_digits p' (10 * acc + N.to_nat (c - 48))%nat
    else (acc, p)
  | [] => (acc, [])
  end.

Definition hex_val (c : N) : option N :=
  if is_digit c then Some (c - 48)
  else if (65 <=? c) && (c <=? 70) then Some (c - 55)
  else if (97 <=? c) && (c <=? 102) then Some (c - 87)
  else None.

Fixpoint read_hex (k : nat) (p : list N) (acc : N) : option (N * list N) :=
  match k with
  | O => Some (acc, p)
  | S k' =>
    match p with
    | c :: p' =>
      match hex_val c with
      | Some v => read_hex k' p' (16 * acc + v)
      | None => None
      end
    | [] => None
    end
  end.

(** CharacterEscape, after the backslash: [\f \n \r \t \v], [\cX], [\xHH],
    [\uHHHH], [\0] and the identity escape of a syntax character or [/]. *)
Definition parse_char_escape (p : list N) : option (N * list N) :=
  match p with
  | [] => None
  | c :: p' =>
    if c =? 102 then Some (12, p')
    else if c =? 110 then Some (10, p')
    else if c =? 114 then Some (13, p')
    else if c =? 116 then Some (9, p')
    else if c =? 118 then Some (11, p')
    else if c =? 99 then
      match p' with
      | l :: p'' => if is_ascii_letter l then Some (l mod 32, p'') else None
      | [] => None
      end
    else if c =? 120 then read_hex 2 p' 0
    else if c =? 117 then read_hex 4 p' 0
    else if c =? 48 then
      match p' with
      | d :: _ => if is_digit d then None else Some (0, p')
      | [] => Some (0, p')
      end
    else if is_syntax_char c || (c =? 47) then Some (c, p')
    else None
  end.

(** CharacterClassEscape: [\d \D \s \S \w \W]. *)
Definition class_escape (c : N) : option class_item :=
  if c =? 100 then Some (CDigit false)
  else if c =? 68 then Some (CDigit true)
  else if c =? 115 then Some (CSpace false)
  else if c =? 83 then Some (CSpace true)
  else if c =? 119 then Some (CWord false)
  else if c =? 87 then Some (CWord true)
  else None.

(** AtomEscape, after the backslash. *)
Definition parse_atom_escape (p : list N) : option (regex * list N) :=
  match p with
  | [] => None
  | c :: p' =>
    match class_escape c with
    | Some item => Some (Class false [item], p')
    | None =>
      if is_digit c && negb (c =? 48) then
        let (n, p'') := read_digits p 0 in Some (Backref n, p'')
      else
        match parse_char_escape p with
        | Some (ch, p'') => Some (Char ch, p'')
        | None => None
        end
    end
  end.

(** ClassAtom: one member of a character class. *)
Definition parse_class_atom (p : list N) : option (class_item * list N) :=
  match p with
  | [] => None
  | c :: p' =>
    if c =? 92 then
      match p' with
      | [] => None
      | e :: p'' =>
        match class_escape e with
        | Some item => Some (item, p'')
        | None =>
          if e =? 98 then Some (CChar 8, p'')
          else if e =? 45 then Some (CChar 45, p'')
          else if is_digit e && negb (e =? 48) then None
          else
            match parse_char_escape p' with
            | Some (ch, q) => Some (CChar ch, q)
            | None => None
            end
        end
      end
    else Some (CChar c, p')
  end.

(** ClassRanges up to and including the closing bracket. *)
Fixpoint parse_class_ranges (fuel : nat) (p : list N)
  : option (list class_item * list N) :=
  match fuel with
  | O => None
  | S f =>
    match p with
    | [] => None
    | c :: p' =>
      if c =? 93 then Some ([], p')
      else
        match parse_class_atom p with
        | None => None
        | Some (a, p1) =>
          let single :=
            match parse_class_ranges f p1 with
            | Some (items, q) => Some (a :: items, q)
            | None => None
            end in
          match p1 with
          | dash :: d :: _ =>
            if (dash =? 45) && negb (d =? 93) then
              match parse_class_atom (tl p1) with
              | Some (b, p2) =>
                match a, b with
                | CChar lo, CChar hi =>
                  if lo <=? hi then
                    match parse_class_ranges f p2 with
                    | Some (items, q) => Some (CRange lo hi :: items, q)
                    | None => None
                    end
                  else None
                | _, _ => None
                end
              | None => None
              end
            else single
          | _ => single
          end
        end
    end
  end.

(** CharacterClass, after the opening bracket. *)
Definition parse_class (fuel : nat) (p : list N) : option (regex * list N) :=
  match p with
  | c :: p' =>
    if c =? 94 then
      match parse_class_ranges fuel p' with
      | Some (items, q) => Some (Class true items, q)
      | None => None
      end
    else
      match parse_class_ranges fuel p with
      | Some (items, q) => Some (Class false items, q)
      | None => None
      end
  | [] => None
  end.

(** The bounds of a braced quantifier, after the opening brace. *)
Definition parse_braces (p : list N) : option (nat * option nat * list N) :=
  match p with
  | [] => None
  | d :: _ =>
    if is_digit d then
      let (lo, p1) := read_digits p 0 in
      match p1 with
      | [] => None
      | c :: p2 =>
        if c =? 125 then Some (lo, Some lo, p2)
        else if c =? 44 then
          match p2 with
          | [] => None
          | e :: p3 =>
            if e =? 125 then Some (lo, None, p3)
            else if is_digit e then
              let (hi, p4) := read_digits p2 0 in
              match p4 with
              | [] => None
              | g :: p5 =>
                if (g =? 125) && (lo <=? hi)%nat then Some (lo, Some hi, p5)
                else None
              end
            else None
          end
        else None
      end
    else None
  end.

(** A quantifier prefix followed by [?] is lazy. *)
Definition with_laziness (mn : nat) (mx : option nat) (atom : regex)
  (p : list N) : regex * list N :=
  match p with
  | c :: p' =>
    if c =? 63 then (Repeat mn mx false atom, p')
    else (Repeat mn mx true atom, p)
  | [] => (Repeat mn mx true atom, [])
  end.

(** The optional Quantifier after an Atom. *)
Definition parse_quantifier (atom : regex) (p : list N)
  : option (regex * list N) :=
  match p with
  | [] => Some (atom, [])
  | c :: p' =>
    if c =? 42 then Some (with_laziness 0 None atom p')
    else if c =? 43 then Some (with_laziness 1 None atom p')
    else if c =? 63 then Some (with_laziness 0 (Some 1%nat) atom p')
    else if c =? 123 then
      match parse_braces p' with
      | Some (lo, hi, q) => Some (with_laziness lo hi atom q)
      | None => None
      end
    else Some (atom, p)
  end.

Definition quantified (atom : regex) (p : list N) (n : nat)
  : option (regex * list N * nat) :=
  match parse_quantifier atom p with
  | Some (r, q) => Some (r, q, n)
  | None => None
  end.

(** A Disjunction that must be closed by a parenthesis. *)
Definition closed (res : option (regex * list N * nat))
  : option (regex * list N * nat) :=
  match res with
  | Some (r, c :: q, n) => if c =? 41 then Some (r, q, n) else None
  | _ => None
  end.

(** Disjunction, Alternative and Term.  The third component counts the
    capturing parentheses opened so far, left to right. *)
Fixpoint parse_disjunction (fuel : nat) (p : list N) (n : nat)
  : option (regex * list N * nat) :=
  match fuel with
  | O => None
  | S f =>
    match parse_alternative f p n with
    | Some (r1, c :: p', n') =>
      if c =? 124 then
        match parse_disjunction f p' n' with
        | Some (r2, q, n'') => Some (Alt r1 r2, q, n'')
        | None => None
        end
      else Some (r1, c :: p', n')
    | other => other
    end
  end

with parse_alternative (fuel : nat) (p : list N) (n : nat)
  : option (regex * list N * nat) :=
  match fuel with
  | O => None
  | S f =>
    match p with
    | [] => Some (Empty, [], n)
    | c :: _ =>
      if (c =? 124) || (c =? 41) then Some (Empty, p, n)
      else
        match parse_term f p n with
        | Some (t, p', n') =>
          match parse_alternative f p' n' with
          | Some (r, q, n'') => Some (Seq t r, q, n'')
          | None => None
          end
        | None => None
        end
    end
  end

with parse_term (fuel : nat) (p : list N) (n : nat)
  : option (regex * list N * nat) :=
  match fuel with
  | O => None
  | S f =>
    match p with
    | [] => None
    | c :: p' =>
      if c =? 94 then Some (LineStart, p', n)
      else if c =? 36 then Some (LineEnd, p', n)
      else if c =? 40 then
        match p' with
        | q1 :: q2 :: p2 =>
          if q1 =? 63 then
            if q2 =? 58 then
              match closed (parse_disjunction f p2 n) with
              | Some (r, q, n') => quantified r q n'
              | None => None
              end
            else if q2 =? 61 then
              match closed (parse_disjunction f p2 n) with
              | Some (r, q, n') => Some (Lookahead false r, q, n')
              | None => None
              end
            else if q2 =? 33 then
              match closed (parse_disjunction f p2 n) with
              | Some (r, q, n') => Some (Lookahead true r, q, n')
              | None => None
              end
            else None
          else
            match closed (parse_disjunction f p' (S n)) with
            | Some (r, q, n') => quantified (Group (S n) r) q n'
            | None => None
            end
        | _ =>
          match closed (parse_disjunction f p' (S n)) with
          | Some (r, q, n') => quantified (Group (S n) r) q n'
          | None => None
          end
        end
      else if c =? 92 then
        match p' with
        | e :: p2 =>
          if e =? 98 then Some (WordBoundary false, p2, n)
          else if e =? 66 then Some (WordBoundary true, p2, n)
          else
            match parse_atom_escape p' with
            | Some (a, q) => quantified a q n
            | None => None
            end
        | [] => None
        end
      else if c =? 46 then quantified AnyChar p' n
      else if c =? 91 then
        match parse_class (List.length p') p' with
        | Some (a, q) => quantified a q n
        | None => None
        end
      else if is_syntax_char c then None
      else quantified (Char c) p' n
    end
  end.

(** The largest back-reference of a pattern. *)
Fixpoint max_backref (r : regex) : nat :=
  match r with
  | Seq r1 r2 | Alt r1 r2 => Nat.max (max_backref r1) (max_backref r2)
  | Group _ r1 | Repeat _ _ _ r1 | Lookahead _ r1 => max_backref r1
  | Backref n => n
  | _ => O
  end.

(** Recursion depth that suffices for a pattern: a term costs three
    levels at most. *)
Definition parse_fuel (p : list N) : nat := 3 * List.length p + 4.

(** Pattern: a Disjunction that uses up the whole source and whose
    back-references all name a group of the pattern. *)
Definition parse_pattern (p : list N) : option (regex * nat) :=
  match parse_disjunction (parse_fuel p) p 0 with
  | Some (r, [], n) => if (max_backref r <=? n)%nat then Some (r, n) else None
  | _ => None
  end.

Record Flags := {
  global : bool;
  ignoreCase : bool;
  multiline : bool
}.

(** The flags string: [g], [i] and [m], each at most once. *)
Fixpoint parse_flags (f : jsstring) (acc : Flags) : option Flags :=
  match f with
  | [] => Some acc
  | c :: f' =>
    if c =? 103 then
      if global acc then None
      else parse_flags f' {| global := true; ignoreCase := ignoreCase acc;
                             multiline := multiline acc |}
    else if c =? 105 then
      if ignoreCase acc then None
      else parse_flags f' {| global := global acc; ignoreCase := true;
                             multiline := multiline acc |}
    else if c =? 109 then
      if multiline acc then None
      else parse_flags f' {| global := global acc;
                             ignoreCase := ignoreCase acc;
                             multiline := true |}
    else None
  end.

Record RegExpObject := {
  matcher : regex;
  groups : nat;
  flags : Flags
}.

(** [new RegExp(pattern, flags)]; [None] is the SyntaxError it throws. *)
Definition RegExp_new (pattern flags : jsstring) : option RegExpObject :=
  match parse_flags flags
          {| global := false; ignoreCase := false; multiline := false |} with
  | None => None
  | Some fl =>
    match parse_pattern pattern with
    | Some (r, n) => Some {| matcher := r; groups := n; flags := fl |}
    | None => None
    end
  end.

(** *** The size limit of the compiler

    The compiler turns a run of terms that each match one code unit
    (characters, [.], classes) into one text node, and matches it by
    offsets from the current position that fit in 15 bits
    ([kMaxCPOffset]): a pattern with a longer run is refused with
    "SyntaxError: Invalid regular expression: ... Regular expression too
    large".  Of the limits of the compiler this is the only one modelled. *)

Definition max_text_length : N := 32767.

Definition is_text (r : regex) : bool :=
  match r with
  | Char _ | AnyChar | Class _ _ => true
  | _ => false
  end.

(** The runs of text of a pattern: the length of the run it starts
    with, and the length of its longest run. *)
Fixpoint text_runs (r : regex) : N * N :=
  match r with
  | Seq r1 r2 =>
    let (leading, longest) := text_runs r2 in
    if is_text r1 then (leading + 1, N.max (leading + 1) longest)
    else (0, N.max (snd (text_runs r1)) longest)
  | Alt r1 r2 => (0, N.max (snd (text_runs r1)) (snd (text_runs r2)))
  | Group _ r1 | Repeat _ _ _ r1 | Lookahead _ r1 => (0, snd (text_runs r1))
  | Char _ | AnyChar | Class _ _ => (1, 1)
  | Empty | LineStart | LineEnd | WordBoundary _ | Backref _ => (0, 0)
  end.

Definition longest_text (r : regex) : N := snd (text_runs r).

Definition too_large (re : RegExpObject) : bool :=
  max_text_length <? longest_text (matcher re).

(** *** Matching *)

(** A matcher state: the input before the current position (nearest
    code unit first), the input from it on, and the captures made so far
    (latest first). *)
Record mstate := {
  before : list N;
  after : list N;
  captures : list (nat * jsstring)
}.

Definition capture (n : nat) (caps : list (nat * jsstring)) : option jsstring :=
  match find (fun e => Nat.eqb (fst e) n) caps with
  | Some e => Some (snd e)
  | None => None
  end.

(** The indices of the capturing groups inside a pattern. *)
Fixpoint groups_of (r : regex) : list nat :=
  match r with
  | Seq r1 r2 | Alt r1 r2 => groups_of r1 ++ groups_of r2
  | Group i r1 => i :: groups_of r1
  | Repeat _ _ _ r1 | Lookahead _ r1 => groups_of r1
  | _ => []
  end.

Definition clear_captures (gs : list nat) (x : mstate) : mstate :=
  {| before := before x; after := after x;
     captures :=
       filter (fun e => negb (existsb (Nat.eqb (fst e)) gs)) (captures x) |}.

Definition item_has (it : class_item) (ch : N) : bool :=
  match it with
  | CChar c => ch =? c
  | CRange lo hi => (lo <=? ch) && (ch <=? hi)
  | CDigit neg => xorb neg (is_digit ch)
  | CSpace neg => xorb neg (is_trimmable ch)
  | CWord neg => xorb neg (is_word_char ch)
  end.

Definition class_has (items : list class_item) (ch : N) : bool :=
  existsb (fun it => item_has it ch) items.

Fixpoint count_up (k : nat) (from : N) : list N :=
  match k with
  | O => []
  | S k' => from :: count_up k' (N.succ from)
  end.

(** Every code unit, from 0 to 65535. *)
Definition code_units : list N := count_up (N.to_nat 65536) 0.

Section Matcher.

(** [Canonicalize] of the language specification for the [i] flag without
    the [u] flag (upper-casing by the Unicode tables of the platform). *)
Variable canonicalize : N -> N.
Variable fl : Flags.

Definition same_char (a b : N) : bool :=
  if ignoreCase fl then canonicalize a =? canonicalize b else a =? b.

(** CharacterSetMatcher: under [i], a code unit is in the set when some
    member of the set canonicalizes as it does. *)
Definition set_has (member : N -> bool) (ch : N) : bool :=
  if ignoreCase fl then
    existsb (fun a => member a && (canonicalize a =? canonicalize ch))
            code_units
  else member ch.

Definition step_if (ok : N -> bool) (x : mstate)
  (k : mstate -> option mstate) : option mstate :=
  match after x with
  | ch :: rest =>
    if ok ch then
      k {| before := ch :: before x; after := rest; captures := captures x |}
    else None
  | [] => None
  end.

(** Matching the captured string [s] again, for a back-reference. *)
Fixpoint match_string (s : jsstring) (x : mstate)
  (k : mstate -> option mstate) : option mstate :=
  match s with
  | [] => k x
  | c :: s' => step_if (same_char c) x (fun y => match_string s' y k)
  end.

Definition at_word_char (l : list N) : bool :=
  match l with
  | c :: _ => is_word_char c
  | [] => false
  end.

Definition at_line_start (x : mstate) : bool :=
  match before x with
  | [] => true
  | c :: _ => multiline fl && is_line_terminator c
  end.

Definition at_line_end (x : mstate) : bool :=
  match after x with
  | [] => true
  | c :: _ => multiline fl && is_line_terminator c
  end.

Definition consumed (x y : mstate) : jsstring :=
  firstn (List.length (after x) - List.length (after y)) (after x).

(** The matcher of a pattern, in continuation-passing style.  The loop of
    [Repeat] is RepeatMatcher: an iteration that is not required and
    matches the empty string fails, so [min] plus the length of the rest
    of the input, plus one, bounds its depth. *)
Fixpoint run_matcher (r : regex) (x : mstate)
  (k : mstate -> option mstate) {struct r} : option mstate :=
  match r with
  | Empty => k x
  | Char c => step_if (same_char c) x k
  | AnyChar => step_if (set_has (fun a => negb (is_line_terminator a))) x k
  | Class neg items =>
    step_if (fun ch => xorb neg (set_has (class_has items) ch)) x k
  | Seq r1 r2 => run_matcher r1 x (fun y => run_matcher r2 y k)
  | Alt r1 r2 =>
    match run_matcher r1 x k with
    | Some z => Some z
    | None => run_matcher r2 x k
    end
  | Group i r1 =>
    run_matcher r1 x
      (fun y => k {| before := before y; after := after y;
                     captures := (i, consumed x y) :: captures y |})
  | Repeat mn mx greedy r1 =>
    (fix loop (fuel : nat) (mn : nat) (mx : option nat) (x : mstate)
       {struct fuel} : option mstate :=
       match fuel with
       | O => None
       | S fuel' =>
         match mx with
         | Some O => k x
         | _ =>
           let d := fun y =>
             if Nat.eqb mn 0
                && Nat.eqb (List.length (after y)) (List.length (after x))
             then None
             else loop fuel' (Nat.pred mn) (option_map Nat.pred mx) y in
           let xr := clear_captures (groups_of r1) x in
           if negb (Nat.eqb mn 0) then run_matcher r1 xr d
           else if greedy then
             match run_matcher r1 xr d with
             | Some z => Some z
             | None => k x
             end
           else
             match k x with
             | Some z => Some z
             | None => run_matcher r1 xr d
             end
         end
       end) (mn + List.length (after x) + 1)%nat mn mx x
  | LineStart => if at_line_start x then k x else None
  | LineEnd => if at_line_end x then k x else None
  | WordBoundary neg =>
    if xorb neg (xorb (at_word_char (before x)) (at_word_char (after x)))
    then k x else None
  | Lookahead neg r1 =>
    match run_matcher r1 x Some with
    | Some y =>
      if neg then None
      else k {| before := before x; after := after x;
                captures := captures y |}
    | None => if neg then k x else None
    end
  | Backref n =>
    match capture n (captures x) with
    | None => k x
    | Some s => match_string s x k
    end
  end.

End Matcher.

(** *** [String.prototype.replace] with a regular expression *)

Section Replace.

Variable canonicalize : N -> N.

(** A match attempt of [re] at the position between [prev] and [rest]. *)
Definition match_at (re : RegExpObject) (prev rest : list N) : option mstate :=
  run_matcher canonicalize (flags re) (matcher re)
    {| before := prev; after := rest; captures := [] |} Some.

(** GetSubstitution: the replacement text with its [$] patterns expanded.
    [matched] is the match, [pre] and [post] the input before and after
    it, [m] the number of groups. *)
Fixpoint substitution (repl matched pre post : jsstring)
  (caps : list (nat * jsstring)) (m : nat) : jsstring :=
  match repl with
  | [] => []
  | c :: r1 =>
    if c =? 36 then
      match r1 with
      | [] => [c]
      | d :: r2 =>
        if d =? 36 then 36 :: substitution r2 matched pre post caps m
        else if d =? 38 then
          matched ++ substitution r2 matched pre post caps m
        else if d =? 96 then pre ++ substitution r2 matched pre post caps m
        else if d =? 39 then post ++ substitution r2 matched pre post caps m
        else if is_digit d then
          let one := N.to_nat (d - 48) in
          let single :=
            if (Nat.leb 1 one && Nat.leb one m)%bool then
              match capture one caps with Some s => s | None => [] end
              ++ substitution r2 matched pre post caps m
            else c :: d :: substitution r2 matched pre post caps m in
          match r2 with
          | e :: r3 =>
            let two := (10 * one + N.to_nat (e - 48))%nat in
            if (is_digit e && Nat.leb 1 two && Nat.leb two m)%bool then
              match capture two caps with Some s => s | None => [] end
              ++ substitution r3 matched pre post caps m
            else single
          | [] => single
          end
        else c :: substitution r1 matched pre post caps m
      end
    else c :: substitution r1 matched pre post caps m
  end.

(** The scan of [replace]: [prev] is the input already passed (nearest
    first), [skip] the number of code units still inside the last match,
    [stop] whether a match has been replaced and the pattern is not global.
    A match is attempted at every position outside a match, the end of the
    input included. *)
Fixpoint replace_scan (re : RegExpObject) (repl : jsstring)
  (prev rest : list N) (skip : nat) (stop : bool) : jsstring :=
  let attempt :=
    if stop then None
    else
      match skip with
      | O => match_at re prev rest
      | S _ => None
      end in
  let expansion :=
    match attempt with
    | Some y =>
      let len := (List.length rest - List.length (after y))%nat in
      substitution repl (firstn len rest) (rev prev) (skipn len rest)
        (captures y) (groups re)
    | None => []
    end in
  let matched_len :=
    match attempt with
    | Some y => (List.length rest - List.length (after y))%nat
    | None => O
    end in
  let stop' :=
    match attempt with
    | Some _ => negb (global (flags re))
    | None => stop
    end in
  match rest with
  | [] => expansion
  | c :: rest' =>
    match attempt with
    | Some _ =>
      match matched_len with
      | O => expansion ++ c :: replace_scan re repl (c :: prev) rest' 0 stop'
      | S n => expansion ++ replace_scan re repl (c :: prev) rest' n stop'
      end
    | None =>
      match skip with
      | O => c :: replace_scan re repl (c :: prev) rest' 0 stop
      | S n => replace_scan re repl (c :: prev) rest' n stop
      end
    end
  end.

(** [text.replace(re, repl)] for a pattern whose [lastIndex] is 0.  The
    pattern is compiled for the first match attempt, which is made
    whatever the text is; the result of the scan is a new string. *)
Definition replace (text : jsstring) (re : RegExpObject) (repl : jsstring)
  : completion jsstring :=
  if too_large re then Throw SyntaxError
  else new_string (replace_scan re repl [] text 0 false).

End Replace.

(** *** Vocabulary of the properties *)

(** The pattern that matches exactly the string [s]: one [Char] per
    code unit. *)
Fixpoint literal (s : jsstring) : regex :=
  match s with
  | [] => Empty
  | c :: s' => Seq (Char c) (literal s')
  end.

(** A syntax character preceded by a backslash, any other code unit as
    it is. *)
Definition escape_char (c : N) : jsstring :=
  if is_syntax_char c then [92; c] else [c].

(** A string with every syntax character escaped. *)
Definition escape_all (s : jsstring) : jsstring := flat_map escape_char s.

(** The pattern starts with a quantifier. *)
Definition quantifier_ahead (p : list N) : bool :=
  match p with
  | [] => false
  | c :: _ => (c =? 42) || (c =? 43) || (c =? 63) || (c =? 123)
  end.

End RegExp.

(* ===================================================================== *)
(** ** [web/src/app/search/page.tsx]: the search page *)
(* ===================================================================== *)

Module SearchPage.
Import JS Http.

Section WithNumber.

(** The type of JavaScript numbers; the page only stores and shows them. *)
Variable number : Type.

Record SearchResult := {
  content : jsstring;
  sender : jsstring;
  date : jsstring;
  conversation : jsstring;
  similarity_score : number
}.

(** The four [useState] hooks of [SearchPage]. *)
Record State := {
  query : jsstring;
  results : list SearchResult;
  isLoading : bool;
  hasSearched : bool
}.

Record Request := {
  method : Method;
  url : jsstring
}.

(** The field of the response body that [search] reads: [data.results],
    which may be missing. *)
Record SearchData := {
  data_results : option (list SearchResult)
}.

(** The component, its pending fetches, and what it wrote to the console. *)
Record Page := {
  state : State;
  pending : list Request;
  console : list jsstring
}.

Definition initial : Page :=
  {| state := {| query := []; results := []; isLoading := false;
                 hasSearched := false |};
     pending := [];
     console := [] |}.

(** [search], up to the [await fetch(...)].  [encodeURIComponent] is
    evaluated inside the [try] block: when it throws, [catch] and [finally]
    run in the same handler run and no fetch is issued. *)
Definition search (p : Page) : Page :=
  let st := state p in
  if negb (truthy (trim (query st))) then p
  else
    match encodeURIComponent (query st) with
    | Some q =>
      {| state := {| query := query st; results := results st;
                     isLoading := true; hasSearched := true |};
         pending :=
           pending p
           ++ [{| method := GET;
                  url := origin ++ lit "/search?query=" ++ q
                         ++ lit "&limit=20" |}];
         console := console p |}
    | None =>
      {| state := {| query := query st; results := [];
                     isLoading := false; hasSearched := true |};
         pending := pending p;
         console := console p ++ [lit "Search error:"] |}
    end.

(** [data.results || []] *)
Definition results_or_empty (d : SearchData) : list SearchResult :=
  match data_results d with
  | Some rs => rs
  | None => []
  end.

(** [search], from the [await] on: the continuation of the [i]-th pending
    fetch, run when it settles with [o]. *)
Definition settle (i : nat) (o : Outcome SearchData) (p : Page) : Page :=
  match nth_error (pending p) i with
  | None => p
  | Some _ =>
    let st := state p in
    let rest := firstn i (pending p) ++ skipn (S i) (pending p) in
    match try_data o with
    | Some data =>
      {| state := {| query := query st; results := results_or_empty data;
                     isLoading := false; hasSearched := hasSearched st |};
         pending := rest;
         console := console p |}
    | None =>
      {| state := {| query := query st; results := [];
                     isLoading := false; hasSearched := hasSearched st |};
         pending := rest;
         console := console p ++ [lit "Search error:"] |}
    end
  end.

(** [onChange] of the input: [setQuery(e.target.value)]. *)
Definition onChange (v : jsstring) (p : Page) : Page :=
  {| state := {| query := v; results := results (state p);
                 isLoading := isLoading (state p);
                 hasSearched := hasSearched (state p) |};
     pending := pending p;
     console := console p |}.

(** [handleKeyPress]: Enter searches. *)
Definition handleKeyPress (key : jsstring) (p : Page) : Page :=
  if jsstring_eqb key (lit "Enter") then search p else p.

(** What the results area shows (lines 95-174): the loading skeleton, the
    result cards under their count, the "No Results Found" panel, or the
    introduction shown before any search. *)
Inductive View :=
| Skeleton
| ResultCards (found : nat) (cards : list SearchResult) (for_query : jsstring)
| NoResultsFound
| Introduction.

Definition render (st : State) : View :=
  if isLoading st then Skeleton
  else if hasSearched st then
    match results st with
    | _ :: _ => ResultCards (List.length (results st)) (results st) (query st)
    | [] => NoResultsFound
    end
  else Introduction.

Section Highlight.

(** [Canonicalize] of the platform, used by the [i] flag. *)
Variable canonicalize : N -> N.

(** The pattern of the regular expression literal of line 60, which
    matches one syntax character. *)
Definition escape_pattern : jsstring := lit "[.*+?^${}()|[\]\\]".

(** The replacement of line 61: the match between [mark] tags. *)
Definition mark_replacement : jsstring :=
  lit "<mark className=" ++ [34%N] ++ lit "bg-yellow-200" ++ [34%N]
  ++ lit ">$1</mark>".

(** [highlightQuery(text, query)].  The regular expression literal is
    built by the constructor like the one made from the query; it is
    accepted (lemma [special_chars_built] below).  What [query.replace],
    the template literal, the constructor or [text.replace] throws leaves
    the function: it has no [try]. *)
Definition highlightQuery (text query : jsstring) : completion jsstring :=
  if negb (truthy (trim query)) then Normal text
  else
    match RegExp.RegExp_new escape_pattern (lit "g") with
    | None => Throw SyntaxError
    | Some special =>
      match RegExp.replace canonicalize query special (lit "\$&") with
      | Throw e => Throw e
      | Normal escaped =>
        match new_string (lit "(" ++ escaped ++ lit ")") with
        | Throw e => Throw e
        | Normal pattern =>
          match RegExp.RegExp_new pattern (lit "gi") with
          | None => Throw SyntaxError
          | Some regex =>
            RegExp.replace canonicalize text regex mark_replacement
          end
        end
      end
    end.

End Highlight.

End WithNumber.

Section Events.

Variable number : Type.

(** What the input and the Search button are given (lines 74-88). *)
Record Controls := {
  input_value : jsstring;
  button_disabled : bool;
  button_label : jsstring
}.

Definition controls (st : State number) : Controls :=
  {| input_value := query st;
     button_disabled := negb (truthy (trim (query st))) || isLoading st;
     button_label := if isLoading st then lit "Searching..."
                     else lit "Search" |}.

Inductive Event :=
| Change (v : jsstring)
| KeyPress (key : jsstring)
| ClickSearch
| Settle (i : nat) (o : Outcome (SearchData number)).

Definition step (p : Page number) (e : Event) : Page number :=
  match e with
  | Change v => onChange v p
  | KeyPress k => handleKeyPress k p
  | ClickSearch => search p
  | Settle i o => settle i o p
  end.

Definition run (p : Page number) (es : list Event) : Page number :=
  fold_left step es p.

End Events.

Arguments ClickSearch {number}.
Arguments Change {number} v.
Arguments KeyPress {number} key.

(** *** Vocabulary of the properties *)

(** The regular expression of the literal of line 60, as
    [RegExp.RegExp_new] builds it: a class of the fourteen syntax
    characters, with the [g] flag. *)
Definition special_chars : RegExp.RegExpObject :=
  {| RegExp.matcher :=
       RegExp.Seq
         (RegExp.Class false
            (List.map RegExp.CChar
               [46; 42; 43; 63; 94; 36; 123; 125; 40; 41; 124; 91; 93; 92]%N))
         RegExp.Empty;
     RegExp.groups := 0;
     RegExp.flags := {| RegExp.global := true; RegExp.ignoreCase := false;
                        RegExp.multiline := false |} |}.

(** The replacement of line 61 for a match [m]. *)
Definition mark_replacement_of (m : jsstring) : jsstring :=
  lit "<mark className=" ++ [34%N] ++ lit "bg-yellow-200" ++ [34%N]
  ++ lit ">" ++ m ++ lit "</mark>".

(** [Canonicalize] on ASCII: the upper case of a small letter. *)
Definition ascii_upper (c : N) : N :=
  if ((97 <=? c) && (c <=? 122))%N then (c - 32)%N else c.

(** [q] is a prefix of [text] up to case, as [canonicalize] sees it. *)
Fixpoint prefix_ci (canonicalize : N -> N) (q text : jsstring) : bool :=
  match q, text with
  | [], _ => true
  | c :: q', d :: text' =>
    N.eqb (canonicalize c) (canonicalize d) && prefix_ci canonicalize q' text'
  | _ :: _, [] => false
  end.

(** The text with every occurrence of [q], up to case, put between
    [mark] tags: occurrences are taken left to right and do not overlap;
    [skip] counts the code units still inside the last occurrence. *)
Fixpoint mark_all (canonicalize : N -> N) (q text : jsstring) (skip : nat)
  : jsstring :=
  match text with
  | [] => []
  | c :: text' =>
    match skip with
    | S n => mark_all canonicalize q text' n
    | O =>
      if prefix_ci canonicalize q text then
        mark_replacement_of (firstn (List.length q) text)
        ++ mark_all canonicalize q text' (List.length q - 1)
      else c :: mark_all canonicalize q text' 0
    end
  end.

(** The regular expression that line 60 builds for [query]: one capturing
    group around the literal query, with the [g] and [i] flags. *)
Definition query_regex (query : jsstring) : RegExp.RegExpObject :=
  {| RegExp.matcher :=
       RegExp.Seq (RegExp.Group 1 (RegExp.literal query)) RegExp.Empty;
     RegExp.groups := 1;
     RegExp.flags := {| RegExp.global := true; RegExp.ignoreCase := true;
                        RegExp.multiline := false |} |}.

Arguments NoResultsFound {number}.
Arguments Skeleton {number}.
Arguments Introduction {number}.
Arguments initial {number}.

(** A text cut into pieces, each flagged as marked or not. *)
Definition pieces_text (pieces : list (bool * jsstring)) : jsstring :=
  flat_map snd pieces.

(** The pieces with the marked ones between [mark] tags. *)
Definition pieces_marked (pieces : list (bool * jsstring)) : jsstring :=
  flat_map (fun piece : bool * jsstring =>
              if fst piece then mark_replacement_of (snd piece)
              else snd piece) pieces.

(** A marked piece is as long as the query and equal to it up to case. *)
Definition piece_matches (canonicalize : N -> N) (q : jsstring)
  (piece : bool * jsstring) : bool :=
  if fst piece then
    Nat.eqb (List.length (snd piece)) (List.length q)
    && prefix_ci canonicalize q (snd piece)
  else true.

End SearchPage.

(* ===================================================================== *)
(** ** [web/src/app/conversations/page.tsx]: the conversation browser *)
(* ===================================================================== *)

Module ConversationsPage.
Import JS Http.

Section WithNumber.

Variable number : Type.

Record Conversation := {
  id : jsstring;
  display_name : jsstring;
  participants : list jsstring;
  message_count : number;
  last_message_date : jsstring;
  is_group : bool
}.

(** The three [useState] hooks of [ConversationsPage]. *)
Record State := {
  conversations : list Conversation;
  isLoading : bool;
  error : option jsstring
}.

Record Request := {
  method : Method;
  url : jsstring
}.

Record ConversationsData := {
  data_conversations : option (list Conversation)
}.

Record Page := {
  state : State;
  pending : list Request
}.

Definition initial : Page :=
  {| state := {| conversations := []; isLoading := true; error := None |};
     pending := [] |}.

Definition load_error : jsstring :=
  lit "Failed to load conversations. Make sure the FastAPI server is running.".

(** [fetchConversations], up to the [await fetch(...)]; run on mount and
    by the Retry button. *)
Definition fetchConversations (p : Page) : Page :=
  {| state := state p;
     pending :=
       pending p
       ++ [{| method := GET; url := origin ++ lit "/conversations" |}] |}.

(** [fetchConversations], from the [await] on. *)
Definition settle (i : nat) (o : Outcome ConversationsData) (p : Page) : Page :=
  match nth_error (pending p) i with
  | None => p
  | Some _ =>
    let st := state p in
    let rest := firstn i (pending p) ++ skipn (S i) (pending p) in
    match try_data o with
    | Some data =>
      {| state :=
           {| conversations :=
                match data_conversations data with
                | Some cs => cs
                | None => []
                end;
              isLoading := false;
              error := error st |};
         pending := rest |}
    | None =>
      {| state := {| conversations := conversations st;
                     isLoading := false;
                     error := Some load_error |};
         pending := rest |}
    end
  end.

(** What the page shows: the skeleton, the error panel with its Retry
    button, the "No Conversations Found" panel, or the list. *)
Inductive View :=
| Skeleton
| ErrorPanel (message : jsstring)
| NoConversationsFound
| ConversationList (items : list Conversation).

Definition render (st : State) : View :=
  if isLoading st then Skeleton
  else
    match error st with
    | Some e => if truthy e then ErrorPanel e
                else match conversations st with
                     | [] => NoConversationsFound
                     | _ :: _ => ConversationList (conversations st)
                     end
    | None =>
      match conversations st with
      | [] => NoConversationsFound
      | _ :: _ => ConversationList (conversations st)
      end
    end.

End WithNumber.

Arguments initial {number}.
Arguments Skeleton {number}.
Arguments ErrorPanel {number} message.
Arguments NoConversationsFound {number}.

Section Events.

Variable number : Type.

(** [useEffect(() => { fetchConversations() }, [])]: the page after it
    has mounted. *)
Definition mounted : Page number := fetchConversations (initial (number := number)).

Inductive Event :=
| ClickRetry
| Settle (i : nat) (o : Outcome (ConversationsData number)).

Definition step (p : Page number) (e : Event) : Page number :=
  match e with
  | ClickRetry => fetchConversations p
  | Settle i o => settle i o p
  end.

Definition run (p : Page number) (es : list Event) : Page number :=
  fold_left step es p.

End Events.

Arguments ClickRetry {number}.

Section FormatDate.

Local Open Scope Z_scope.

(** [new Date(dateString).getTime()]: the time value in milliseconds of a
    date string, [None] for the NaN of a string that is no date.  Parsing
    is the platform's. *)
Variable Date_parse : jsstring -> option Z.

(** [formatDate(dateString)] at clock reading [now] (the time value of
    [new Date()]).  The time value of a date is an integer of at most
    8.64e15 in magnitude and a clock reading is far smaller, so the
    difference stays below 2^53: the subtraction and [Math.floor] of each
    quotient are exact and are done on integers here.  NaN fails every
    comparison and reaches the last line. *)
Definition formatDate (now : Z) (dateString : jsstring) : jsstring :=
  match Date_parse dateString with
  | None => lit "NaN years ago"
  | Some date =>
    let diffInMs := now - date in
    let diffInDays := diffInMs / (1000 * 60 * 60 * 24) in
    if diffInDays =? 0 then lit "Today"
    else if diffInDays =? 1 then lit "Yesterday"
    else if diffInDays <? 7 then
      integer_to_string diffInDays ++ lit " days ago"
    else if diffInDays <? 30 then
      integer_to_string (diffInDays / 7) ++ lit " weeks ago"
    else if diffInDays <? 365 then
      integer_to_string (diffInDays / 30) ++ lit " months ago"
    else integer_to_string (diffInDays / 365) ++ lit " years ago"
  end.

End FormatDate.

(** The heading of a conversation card:
    [display_name || participants.join(', ')]. *)
Fixpoint join (sep : jsstring) (items : list jsstring) : jsstring :=
  match items with
  | [] => []
  | [x] => x
  | x :: rest => x ++ sep ++ join sep rest
  end.

Definition card_title {number : Type} (c : Conversation number) : jsstring :=
  if truthy (display_name c) then display_name c
  else join (lit ", ") (participants c).

End ConversationsPage.

(* ===================================================================== *)
(** ** The routes of the backend and the calls of the retrieval core *)
(* ===================================================================== *)

Module Routes.
Import JS Http.

Fixpoint strip_prefix (pre s : jsstring) : option jsstring :=
  match pre, s with
  | [], _ => Some s
  | a :: pre', b :: s' => if N.eqb a b then strip_prefix pre' s' else None
  | _ :: _, [] => None
  end.

Fixpoint take_until (stop : N) (s : jsstring) : jsstring :=
  match s with
  | [] => []
  | c :: s' => if N.eqb c stop then [] else c :: take_until stop s'
  end.

(** The path of a URL of the backend: what follows the origin, up to the
    query string. *)
Definition path_of (url : jsstring) : option jsstring :=
  option_map (take_until 63%N) (strip_prefix origin url).

(** The two public calls of the retrieval core. *)
Inductive CoreCall := query | run_index.

(** The routes that stand for them ([server/README.md], [PRD.md]):
    [POST /chat] is the RAG query, [POST /index] starts an indexing run. *)
Definition core_call (m : Method) (url : jsstring) : option CoreCall :=
  match m, path_of url with
  | POST, Some path =>
    if jsstring_eqb path (lit "/chat") then Some query
    else if jsstring_eqb path (lit "/index") then Some run_index
    else None
  | _, _ => None
  end.

(** The requests that a handler run has added to the pending ones. *)
Definition issued {R : Type} (before after : list R) : list R :=
  skipn (List.length before) after.

(** The calls, as method and URL, that one run of each fetching handler
    of the client issues: [sendMessage] on the chat page, [search] on the
    search page, [fetchConversations] on the conversation browser. *)
Definition client_calls {number : Type} (pc : ChatPage.Page)
  (ps : SearchPage.Page number) (pv : ConversationsPage.Page number)
  : list (Method * jsstring) :=
  List.map (fun r => (ChatPage.method r, ChatPage.url r))
    (issued (ChatPage.pending pc) (ChatPage.pending (ChatPage.sendMessage pc)))
  ++ List.map (fun r => (SearchPage.method r, SearchPage.url r))
       (issued (SearchPage.pending ps)
               (SearchPage.pending (SearchPage.search ps)))
  ++ List.map (fun r => (ConversationsPage.method r, ConversationsPage.url r))
       (issued (ConversationsPage.pending pv)
               (ConversationsPage.pending
                  (ConversationsPage.fetchConversations pv))).

End Routes.

(* ===================================================================== *)
(** ** [PRD.md]: the date conversion of [chat.db] *)
(* ===================================================================== *)

Module Timestamp.

Local Open Scope Z_scope.

(** [message.date/1000000000 + 978307200]: both operands of the division
    are SQLite integers, so it truncates toward zero. *)
Definition to_unixepoch (date : Z) : Z :=
  Z.quot date 1000000000 + 978307200.



Record DateTime := {
  year : Z; month : Z; day : Z;
  hour : Z; minute : Z; second : Z
}.

(** The proleptic Gregorian date of a day number counted from
    1970-01-01. *)
Definition civil_from_days (days : Z) : Z * Z * Z :=
  let z := days + 719468 in
  let era := z / 146097 in
  let doe := z - era * 146097 in
  let yoe := (doe - doe / 1460 + doe / 36524 - doe / 146096) / 365 in
  let doy := doe - (365 * yoe + yoe / 4 - yoe / 100) in
  let mp := (5 * doy + 2) / 153 in
  let d := doy - (153 * mp + 2) / 5 + 1 in
  let m := if mp <? 10 then mp + 3 else mp - 9 in
  let y := yoe + era * 400 in
  (if m <=? 2 then y + 1 else y, m, d).

(** [datetime(t, 'unixepoch')]: the UTC date and time of [t] seconds
    since 1970-01-01 00:00:00. *)
Definition datetime (t : Z) : DateTime :=
  let '(y, m, d) := civil_from_days (t / 86400) in
  let s := t mod 86400 in
  {| year := y; month := m; day := d;
     hour := s / 3600; minute := (s mod 3600) / 60; second := s mod 60 |}.


End Timestamp.

(* ===================================================================== *)
(** * Properties *)
(* ===================================================================== *)

(** ** The chat page *)

Section ChatPageFacts.
Import JS Http VDom ChatPage.

Lemma flip_involutive r : flip (flip r) = r.
Proof. destruct r; reflexivity. Qed.

Lemma alternates_snoc ms : forall first m,
  alternates first (ms ++ [m])
  = alternates first ms
    && role_eqb (role m)
         (if Nat.even (List.length ms) then first else flip first).
Proof.
  induction ms as [|a ms IH]; intros first m.
  - simpl. now rewrite andb_true_r.
  - cbn [app alternates List.length]. rewrite IH, andb_assoc.
    f_equal. f_equal.
    rewrite Nat.even_succ, <- Nat.negb_even.
    destruct (Nat.even (List.length ms)); simpl;
      now rewrite ?flip_involutive.
Qed.

Lemma sendMessage_blocked p :
  send_blocked (state p) = true -> sendMessage p = p.
Proof. intros H. unfold sendMessage. now rewrite H. Qed.

Lemma sendMessage_loading p :
  isLoading (state p) = true -> sendMessage p = p.
Proof.
  intros H. apply sendMessage_blocked. unfold send_blocked.
  rewrite H. apply orb_true_r.
Qed.

Lemma sendMessage_accepted p :
  send_blocked (state p) = false ->
  sendMessage p =
  {| state := {| messages := messages (state p) ++ [question p];
                 input := []; isLoading := true |};
     pending :=
       pending p
       ++ [{| method := POST; url := origin ++ lit "/chat";
              headers := [(lit "Content-Type", lit "application/json")];
              body := {| query := trim (input (state p));
                         conversation_history :=
                           slice_from (-10) (messages (state p)) |} |}] |}.
Proof. intros H. unfold sendMessage. now rewrite H. Qed.

Lemma nth_error_last_snoc {A} (l : list A) (x : A) :
  nth_error (l ++ [x]) (List.length (l ++ [x]) - 1) = Some x.
Proof.
  rewrite length_app. simpl.
  replace (List.length l + 1 - 1) with (List.length l) by lia.
  rewrite nth_error_app2 by lia. now rewrite Nat.sub_diag.
Qed.

Lemma turn_messages p o :
  send_blocked (state p) = false ->
  messages (state (turn o p)) = messages (state p) ++ [question p; reply o].
Proof.
  intros H. unfold turn. rewrite (sendMessage_accepted p H).
  unfold settle. cbn [pending state messages].
  rewrite nth_error_last_snoc. cbn [state messages].
  now rewrite <- app_assoc.
Qed.

Lemma reply_role o : role (reply o) = assistant.
Proof. unfold reply. now destruct (try_data o). Qed.

Lemma step_consistent p e : consistent p -> consistent (step p e).
Proof.
  intros [Halt Hload].
  assert (Hsend : consistent (sendMessage p)).
  { destruct (send_blocked (state p)) eqn:Hb.
    - rewrite sendMessage_blocked by assumption. now split.
    - rewrite sendMessage_accepted by assumption.
      unfold send_blocked in Hb. apply orb_false_elim in Hb as [_ Hl].
      rewrite Hl in Hload. destruct Hload as [Hp Hev].
      split; cbn [state pending messages isLoading].
      + rewrite alternates_snoc, Halt, Hev. reflexivity.
      + rewrite Hp. split; [reflexivity|].
        rewrite length_app. simpl. rewrite Nat.add_1_r, Nat.odd_succ.
        exact Hev. }
  destruct e as [v|k s| |i o]; cbn [step].
  - split; assumption.
  - unfold handleKeyPress.
    destruct (jsstring_eqb k (lit "Enter") && negb s); [exact Hsend|].
    now split.
  - exact Hsend.
  - unfold settle. destruct (nth_error (pending p) i) eqn:Hn; [|now split].
    destruct (isLoading (state p)) eqn:Hl.
    + destruct Hload as [Hp Hodd].
      split; cbn [state pending messages isLoading].
      * rewrite alternates_snoc, Halt, reply_role.
        rewrite <- Nat.negb_odd, Hodd. reflexivity.
      * split.
        -- destruct (pending p) as [|rq [|rq' l]]; try discriminate.
           destruct i as [|i]; [reflexivity|].
           destruct i; discriminate.
        -- rewrite length_app. simpl. rewrite Nat.add_1_r, Nat.even_succ.
           exact Hodd.
    + destruct Hload as [Hp _]. rewrite Hp in Hn.
      destruct i; discriminate.
Qed.

Lemma run_snoc p es e : run p (es ++ [e]) = step (run p es) e.
Proof. unfold run. now rewrite fold_left_app. Qed.

Lemma reachable_consistent p : reachable p -> consistent p.
Proof.
  intros [es ->].
  induction es as [|e es IH] using rev_ind.
  - repeat split.
  - rewrite run_snoc. now apply step_consistent.
Qed.

Lemma reachable_step p e : reachable p -> reachable (step p e).
Proof.
  intros [es ->]. exists (es ++ [e]). now rewrite run_snoc.
Qed.

Lemma slice_from_last10 {A} (l : list A) :
  slice_from (-10) l = skipn (List.length l - 10) l.
Proof.
  unfold slice_from. cbn [Z.ltb Z.compare]. f_equal. lia.
Qed.


(** C1, as stated, fails: a turn whose fetch is rejected leaves the
    question and an error reply in the message list, which was empty
    before the turn. *)
Lemma failed_turn_is_recorded :
  let p := onChange (lit "hi") initial in
  messages (state (turn NetworkError p))
  = [ {| role := user; content := lit "hi"; sources := None |};
      {| role := assistant; content := error_text; sources := None |} ]
  /\ messages (state (turn NetworkError p)) <> messages (state p).
Proof. split; [reflexivity | discriminate]. Qed.

(** C1 (amended): a turn whose backend call fails (the fetch is rejected,
    the status is not OK, or the body does not parse) keeps the earlier
    messages and appends exactly two: the trimmed question as a user
    message and the fixed error text as an assistant message without
    sources. *)
Theorem failed_turn_appends_question_and_error p o :
  send_blocked (state p) = false ->
  try_data o = None ->
  messages (state (turn o p))
  = messages (state p)
    ++ [ {| role := user; content := trim (input (state p));
            sources := None |};
         {| role := assistant; content := error_text; sources := None |} ].
Proof.
  intros Hb Ho. rewrite turn_messages by assumption.
  unfold reply. now rewrite Ho.
Qed.

Lemma failed_turn_appends_question_and_error_witness :
  messages (state (turn (Response false None)
                        (onChange (lit " where is the key? ") initial)))
  = [ {| role := user; content := lit "where is the key?"; sources := None |};
      {| role := assistant; content := error_text; sources := None |} ].
Proof.
  apply (failed_turn_appends_question_and_error
           (onChange (lit " where is the key? ") initial)
           (Response false None)); reflexivity.
Defined.

(** C3, as stated, fails: along a whole turn answered by "Hello", no
    commit of the page shows a part of the answer; the last commit shows
    all of it. *)
Lemma answer_is_never_shown_in_part :
  let data := {| response := lit "Hello"; data_sources := None |} in
  let es := [Change (lit "hi"); ClickSend;
             Settle 0 (Response true (Some data))] in
  existsb (shows_partial_answer (lit "Hello")) (commits initial es) = false
  /\ List.map (fun p => List.map content (messages (state p)))
       (commits initial es)
     = [ []; []; [lit "hi"]; [lit "hi"; lit "Hello"] ].
Proof. split; reflexivity. Qed.

(** C3 (amended): the answer is delivered in one piece.  A turn answered
    by an OK response that parses passes through exactly two commits: the
    first appends the question, the second appends the whole of
    [data.response] with its sources as one assistant message. *)
Theorem answer_arrives_in_one_commit p data :
  send_blocked (state p) = false ->
  let i := List.length (pending p) in
  List.map (fun q => messages (state q))
    (commits p [ClickSend; Settle i (Response true (Some data))])
  = [ messages (state p);
      messages (state p) ++ [question p];
      messages (state p)
      ++ [question p;
          {| role := assistant; content := response data;
             sources := data_sources data |}] ].
Proof.
  intros Hb i. cbn [commits step List.map].
  rewrite (sendMessage_accepted p Hb).
  unfold settle. cbn [pending state messages].
  subst i. rewrite nth_error_app2 by lia. rewrite Nat.sub_diag.
  cbn [nth_error state messages reply try_data].
  now rewrite <- app_assoc.
Qed.

Lemma answer_arrives_in_one_commit_witness :
  let p := onChange (lit "hi") initial in
  let data := {| response := lit "Hello"; data_sources := None |} in
  List.map (fun q => List.length (messages (state q)))
    (commits p [ClickSend; Settle 0 (Response true (Some data))])
  = [0; 1; 2].
Proof.
  intros p data.
  pose proof (answer_arrives_in_one_commit p data eq_refl) as H.
  cbv zeta in H.
  apply (f_equal (List.map (@List.length Message))) in H.
  rewrite map_map in H. exact H.
Defined.

(** C4: on every reachable page at most one fetch is pending, and while
    one is pending the page is loading and a further submission, by the
    button or by the Enter key, changes nothing: neither the messages nor
    the pending requests.  Once that fetch has settled, whatever the
    outcome, nothing is pending and the page is idle again. *)
Theorem one_question_in_flight p :
  reachable p ->
  List.length (pending p) <= 1
  /\ (pending p <> [] ->
      isLoading (state p) = true
      /\ sendMessage p = p
      /\ (forall key shiftKey, handleKeyPress key shiftKey p = p)
      /\ (forall o, pending (settle 0 o p) = []
                    /\ isLoading (state (settle 0 o p)) = false)).
Proof.
  intros Hr. destruct (reachable_consistent Hr) as [_ Hc].
  destruct (isLoading (state p)) eqn:Hl.
  - destruct Hc as [Hp _]. split; [lia|]. intros _.
    split; [reflexivity|].
    split; [now apply sendMessage_loading|].
    split.
    + intros key shiftKey. unfold handleKeyPress.
      rewrite (sendMessage_loading p Hl). now destruct (_ && _).
    + intros o. unfold settle.
      destruct (pending p) as [|rq [|rq' l]]; try discriminate Hp.
      split; reflexivity.
  - destruct Hc as [Hp _]. rewrite Hp. split; [simpl; lia|]. now intros [].
Qed.

Lemma one_question_in_flight_witness :
  let p := run initial [Change (lit "first"); ClickSend;
                        Change (lit "second")] in
  List.length (pending p) <= 1 /\ sendMessage p = p.
Proof.
  intros p.
  assert (Hr : reachable p) by (eexists; reflexivity).
  destruct (one_question_in_flight Hr) as [Hle Hno].
  split; [exact Hle|].
  apply Hno. discriminate.
Defined.

(** C5: the request of a send carries the trimmed question and, as
    conversation history, the last ten messages that preceded it, in their
    order: the earlier messages split into the ones left out and the
    history, and the history lacks nothing unless fewer than ten exist. *)
Theorem history_is_last_ten_messages p :
  send_blocked (state p) = false ->
  exists r older,
    pending (sendMessage p) = pending p ++ [r]
    /\ query (body r) = trim (input (state p))
    /\ messages (state p) = older ++ conversation_history (body r)
    /\ List.length (conversation_history (body r))
       = Nat.min 10 (List.length (messages (state p))).
Proof.
  intros Hb. rewrite (sendMessage_accepted p Hb). cbn [pending].
  eexists. exists (firstn (List.length (messages (state p)) - 10)
                          (messages (state p))).
  split; [reflexivity|]. cbn [body query conversation_history].
  split; [reflexivity|].
  rewrite slice_from_last10. split.
  - now rewrite firstn_skipn.
  - rewrite length_skipn. lia.
Qed.

Lemma history_is_last_ten_messages_witness :
  let p := {| state := {| messages :=
                            List.map
                              (fun n =>
                                 {| role := if Nat.even n then user
                                            else assistant;
                                    content := [N.of_nat n + 48]%N;
                                    sources := None |})
                              (seq 0 12);
                          input := lit "and then?"; isLoading := false |};
              pending := [] |} in
  exists r older,
    pending (sendMessage p) = pending p ++ [r]
    /\ query (body r) = trim (input (state p))
    /\ messages (state p) = older ++ conversation_history (body r)
    /\ List.length (conversation_history (body r))
       = Nat.min 10 (List.length (messages (state p))).
Proof.
  intros p. apply (history_is_last_ten_messages p). reflexivity.
Defined.


(** C9: a completed send on a reachable page appends exactly two
    messages, the trimmed input as a user message and then an assistant
    message holding the server's answer or the fixed error text; the
    roles of the message list alternate user, assistant, user, assistant
    before and after it. *)
Theorem completed_send_appends_user_then_assistant p o :
  reachable p ->
  send_blocked (state p) = false ->
  let after := messages (state (turn o p)) in
  after = messages (state p) ++ [question p; reply o]
  /\ List.length after = 2 + List.length (messages (state p))
  /\ role (question p) = user
  /\ content (question p) = trim (input (state p))
  /\ role (reply o) = assistant
  /\ content (reply o)
     = match try_data o with
       | Some data => response data
       | None => error_text
       end
  /\ alternates user (messages (state p)) = true
  /\ alternates user after = true.
Proof.
  intros Hr Hb after.
  assert (Hafter : after = messages (state p) ++ [question p; reply o])
    by (apply turn_messages; assumption).
  split; [exact Hafter|].
  split; [rewrite Hafter, length_app; simpl; lia|].
  split; [reflexivity|]. split; [reflexivity|].
  split; [apply reply_role|].
  split; [unfold reply; now destruct (try_data o)|].
  split; [apply (reachable_consistent Hr)|].
  assert (Hr' : reachable (turn o p)).
  { unfold turn.
    apply (reachable_step (Settle _ o) (reachable_step ClickSend Hr)). }
  apply (reachable_consistent Hr').
Qed.

Lemma completed_send_appends_user_then_assistant_witness :
  let p := run initial [Change (lit "one"); ClickSend;
                        Settle 0 NetworkError; Change (lit " two ")] in
  let data := {| response := lit "2"; data_sources := Some [] |} in
  List.map role (messages (state (turn (Response true (Some data)) p)))
  = [user; assistant; user; assistant].
Proof.
  intros p data.
  assert (Hr : reachable p) by (eexists; reflexivity).
  destruct (completed_send_appends_user_then_assistant
              (Response true (Some data)) Hr eq_refl) as [H _].
  rewrite H. reflexivity.
Defined.

End ChatPageFacts.

(** ** The date conversion *)

Section TimestampFacts.
Import Timestamp.
Local Open Scope Z_scope.


Example datetime_of_unix_origin :
  datetime 0
  = {| year := 1970; month := 1; day := 1;
       hour := 0; minute := 0; second := 0 |}.
Proof. vm_compute. reflexivity. Qed.

Example datetime_of_leap_day :
  datetime 1709251199
  = {| year := 2024; month := 2; day := 29;
       hour := 23; minute := 59; second := 59 |}.
Proof. vm_compute. reflexivity. Qed.

Example to_unixepoch_of_nanoseconds :
  datetime (to_unixepoch 731462400000000000)
  = {| year := 2024; month := 3; day := 7;
       hour := 0; minute := 0; second := 0 |}.
Proof. vm_compute. reflexivity. Qed.


End TimestampFacts.

(** ** Regular expressions and [highlightQuery] *)

Section RegExpFacts.
Import JS RegExp.
Local Open Scope N_scope.

Lemma is_syntax_char_cases c :
  is_syntax_char c = true ->
  In c [94; 36; 92; 46; 42; 43; 63; 40; 41; 91; 93; 123; 125; 124].
Proof.
  unfold is_syntax_char. rewrite !orb_true_iff, !N.eqb_eq.
  intros H. decompose [or] H; subst; simpl; tauto.
Qed.

Lemma not_syntax_char c k :
  is_syntax_char c = false -> is_syntax_char k = true -> (c =? k) = false.
Proof.
  intros Hc Hk. apply N.eqb_neq. intros ->. congruence.
Qed.

Lemma escape_all_cons c s : escape_all (c :: s) = escape_char c ++ escape_all s.
Proof. reflexivity. Qed.

(** An escaped string followed by a closing parenthesis never starts with
    a quantifier, a question mark included. *)
Lemma no_quantifier_after_escape s rest :
  quantifier_ahead (escape_all s ++ 41 :: rest) = false.
Proof.
  destruct s as [|c s]; [reflexivity|].
  rewrite escape_all_cons. unfold escape_char.
  destruct (is_syntax_char c) eqn:Hc; [reflexivity|].
  cbn [app quantifier_ahead].
  rewrite !(@not_syntax_char c _ Hc) by reflexivity. reflexivity.
Qed.

Lemma parse_quantifier_none atom p :
  quantifier_ahead p = false -> parse_quantifier atom p = Some (atom, p).
Proof.
  destruct p as [|c p]; [reflexivity|]. cbn [quantifier_ahead].
  intros H. repeat (apply orb_false_elim in H as [H ?]).
  unfold parse_quantifier. now rewrite H, H0, H1, H2.
Qed.

Lemma parse_term_escaped f c p n :
  quantifier_ahead p = false ->
  parse_term (S f) (escape_char c ++ p) n = Some (Char c, p, n).
Proof.
  intros Hq. unfold escape_char. destruct (is_syntax_char c) eqn:Hc.
  - apply is_syntax_char_cases in Hc. cbn [In] in Hc.
    assert (Hquant : quantified (Char c) p n = Some (Char c, p, n))
      by (unfold quantified; now rewrite parse_quantifier_none).
    repeat (destruct Hc as [<-|Hc]; [exact Hquant|]).
    contradiction.
  - cbn [app parse_term].
    rewrite !(@not_syntax_char c _ Hc) by reflexivity. rewrite Hc.
    unfold quantified. now rewrite parse_quantifier_none.
Qed.

Lemma parse_alternative_step f c p n :
  (c =? 124) || (c =? 41) = false ->
  parse_alternative (S f) (c :: p) n
  = match parse_term f (c :: p) n with
    | Some (t, p', n') =>
      match parse_alternative f p' n' with
      | Some (r, q, n'') => Some (Seq t r, q, n'')
      | None => None
      end
    | None => None
    end.
Proof. intros H. cbn [parse_alternative]. now rewrite H. Qed.

Lemma escape_char_head c p :
  exists d q, escape_char c ++ p = d :: q /\ (d =? 124) || (d =? 41) = false
              /\ (d =? 63) = false.
Proof.
  unfold escape_char. destruct (is_syntax_char c) eqn:Hc.
  - exists 92, (c :: p). repeat split.
  - exists c, p. rewrite !(@not_syntax_char c _ Hc) by reflexivity.
    repeat split.
Qed.

Lemma parse_alternative_escaped s : forall fuel rest n,
  (List.length s < fuel)%nat ->
  parse_alternative fuel (escape_all s ++ 41 :: rest) n
  = Some (literal s, 41 :: rest, n).
Proof.
  induction s as [|c s IH]; intros fuel rest n Hf.
  - destruct fuel as [|f]; [inversion Hf|]. reflexivity.
  - destruct fuel as [|[|f]]; cbn [List.length] in Hf; try lia.
    rewrite escape_all_cons, <- app_assoc.
    destruct (escape_char_head c (escape_all s ++ 41 :: rest))
      as (d & q & Heq & Hd & _).
    rewrite Heq, parse_alternative_step by exact Hd.
    rewrite <- Heq, parse_term_escaped by apply no_quantifier_after_escape.
    rewrite IH by lia. reflexivity.
Qed.

Lemma max_backref_literal s : max_backref (literal s) = 0%nat.
Proof. induction s as [|c s IH]; [reflexivity|]. simpl. exact IH. Qed.

Lemma parse_group_step f c p n :
  (c =? 63) = false ->
  parse_term (S f) (40 :: c :: p) n
  = match closed (parse_disjunction f (c :: p) (S n)) with
    | Some (r, q, n') => quantified (Group (S n) r) q n'
    | None => None
    end.
Proof.
  intros H. cbn [parse_term]. cbn [N.eqb Pos.eqb].
  destruct p as [|c2 p]; [reflexivity|]. now rewrite H.
Qed.

Lemma parse_disjunction_escaped s fuel n :
  (S (List.length s) < fuel)%nat ->
  closed (parse_disjunction fuel (escape_all s ++ [41]) n)
  = Some (literal s, [], n).
Proof.
  intros Hf. destruct fuel as [|f]; [inversion Hf|].
  cbn [parse_disjunction].
  rewrite parse_alternative_escaped by lia. reflexivity.
Qed.

(** The pattern built from an escaped string is accepted, and it is one
    capturing group around the literal string. *)
Lemma parse_pattern_escaped s :
  parse_pattern (40 :: escape_all s ++ [41])
  = Some (Seq (Group 1 (literal s)) Empty, 1%nat).
Proof.
  unfold parse_pattern, parse_fuel.
  set (p := 40 :: escape_all s ++ [41]).
  assert (Hlen : (List.length s + 2 <= List.length p)%nat).
  { subst p. cbn [List.length]. rewrite length_app. cbn [List.length].
    assert (List.length s <= List.length (escape_all s))%nat; [|lia].
    clear. induction s as [|c s IH]; [reflexivity|].
    rewrite escape_all_cons, length_app. unfold escape_char.
    destruct (is_syntax_char c); cbn [List.length]; lia. }
  remember (3 * List.length p + 4)%nat as F eqn:HF.
  destruct F as [|[|[|f]]]; try lia.
  assert (Hterm : parse_term (S f) p 0
                  = Some (Group 1 (literal s), [], 1%nat)).
  { subst p.
    assert (Hhead : exists d q, escape_all s ++ [41] = d :: q
                                /\ (d =? 63) = false).
    { destruct s as [|c s]; [now exists 41, []|].
      rewrite escape_all_cons, <- app_assoc.
      destruct (escape_char_head c (escape_all s ++ [41]))
        as (d & q & Heq & _ & Hd). now exists d, q. }
    destruct Hhead as (d & q & Heq & Hd).
    rewrite Heq, parse_group_step by exact Hd.
    rewrite <- Heq, parse_disjunction_escaped by lia. reflexivity. }
  cbn [parse_disjunction].
  subst p. rewrite parse_alternative_step by reflexivity.
  rewrite Hterm. cbn [parse_alternative max_backref].
  rewrite max_backref_literal. reflexivity.
Qed.


Section ReplaceFacts.
Variable canonicalize : N -> N.
Import SearchPage.

Lemma special_chars_built :
  RegExp_new escape_pattern (lit "g") = Some special_chars.
Proof. vm_compute. reflexivity. Qed.

Lemma special_class c :
  class_has
    (List.map CChar [46; 42; 43; 63; 94; 36; 123; 125; 40; 41; 124; 91; 93; 92])
    c
  = is_syntax_char c.
Proof.
  destruct (is_syntax_char c) eqn:Hc.
  - apply is_syntax_char_cases in Hc. cbn [In] in Hc.
    repeat (destruct Hc as [<-|Hc]; [reflexivity|]). contradiction.
  - cbn [class_has existsb item_has List.map].
    rewrite !(@not_syntax_char c _ Hc) by reflexivity. reflexivity.
Qed.

Lemma match_at_special prev rest :
  match_at canonicalize special_chars prev rest
  = match rest with
    | c :: rest' =>
      if is_syntax_char c
      then Some {| before := c :: prev; after := rest'; captures := [] |}
      else None
    | [] => None
    end.
Proof.
  unfold match_at, special_chars.
  cbn [matcher flags run_matcher]. unfold step_if, set_has.
  cbn [after before captures ignoreCase xorb].
  destruct rest as [|c rest]; [reflexivity|].
  rewrite special_class.
  now destruct (is_syntax_char c).
Qed.

Lemma replace_scan_one re repl prev c rest y :
  match_at canonicalize re prev (c :: rest) = Some y ->
  after y = rest ->
  replace_scan canonicalize re repl prev (c :: rest) 0 false
  = substitution repl [c] (rev prev) rest (captures y) (groups re)
    ++ replace_scan canonicalize re repl (c :: prev) rest 0
         (negb (global (flags re))).
Proof.
  intros Hm Ha. cbn [replace_scan]. rewrite Hm, Ha.
  cbn [List.length]. rewrite Nat.sub_succ_l, Nat.sub_diag by reflexivity.
  reflexivity.
Qed.

Lemma replace_scan_none re repl prev c rest :
  match_at canonicalize re prev (c :: rest) = None ->
  replace_scan canonicalize re repl prev (c :: rest) 0 false
  = c :: replace_scan canonicalize re repl (c :: prev) rest 0 false.
Proof. intros Hm. cbn [replace_scan]. now rewrite Hm. Qed.

Lemma escape_by_replace s : forall prev,
  replace_scan canonicalize special_chars (lit "\$&") prev s 0 false
  = escape_all s.
Proof.
  induction s as [|c s IH]; intros prev.
  - cbn [replace_scan]. now rewrite match_at_special.
  - rewrite escape_all_cons. unfold escape_char.
    destruct (is_syntax_char c) eqn:Hc.
    + erewrite replace_scan_one;
        [|rewrite match_at_special, Hc; reflexivity|reflexivity].
      cbn [special_chars flags global negb]. rewrite IH. reflexivity.
    + rewrite replace_scan_none by (now rewrite match_at_special, Hc).
      now rewrite IH.
Qed.

Lemma trimStart_blank s :
  forallb is_trimmable (trimStart s) = forallb is_trimmable s.
Proof.
  induction s as [|c s IH]; [reflexivity|].
  cbn [trimStart forallb]. destruct (is_trimmable c) eqn:Hc.
  - exact IH.
  - cbn [forallb]. now rewrite Hc.
Qed.

Lemma trimStart_truthy s :
  truthy (trimStart s) = negb (forallb is_trimmable s).
Proof.
  induction s as [|c s IH]; [reflexivity|].
  cbn [trimStart forallb]. now destruct (is_trimmable c).
Qed.

Lemma forallb_rev {A} (f : A -> bool) l : forallb f (rev l) = forallb f l.
Proof.
  induction l as [|a l IH]; [reflexivity|].
  cbn [rev forallb]. rewrite forallb_app, IH. cbn [forallb].
  rewrite andb_true_r. apply andb_comm.
Qed.

Lemma truthy_rev (l : jsstring) : truthy (rev l) = truthy l.
Proof.
  destruct l as [|a l]; [reflexivity|]. cbn [rev].
  now destruct (rev l).
Qed.

(** [!query.trim()] holds exactly for the strings made of white space
    and line terminators only, the empty string among them. *)
Lemma trim_truthy s : truthy (trim s) = negb (forallb is_trimmable s).
Proof.
  unfold trim, trimEnd.
  rewrite truthy_rev, trimStart_truthy, forallb_rev.
  now rewrite trimStart_blank.
Qed.

Lemma prefix_ci_length q : forall text,
  prefix_ci canonicalize q text = true ->
  (List.length q <= List.length text)%nat.
Proof.
  induction q as [|c q IH]; intros [|d text] H; cbn [List.length];
    try (cbn in H; discriminate); try lia.
  cbn [prefix_ci] in H. apply andb_prop in H as [_ H].
  apply IH in H. lia.
Qed.

Lemma run_matcher_literal q : forall x k,
  run_matcher canonicalize (flags (query_regex q)) (literal q) x k
  = if prefix_ci canonicalize q (after x)
    then k {| before := rev (firstn (List.length q) (after x)) ++ before x;
              after := skipn (List.length q) (after x);
              captures := captures x |}
    else None.
Proof.
  induction q as [|c q IH]; intros [prev rest caps] k.
  - reflexivity.
  - cbn [literal run_matcher]. unfold step_if, same_char.
    cbn [after before captures query_regex flags ignoreCase].
    destruct rest as [|d rest]; [reflexivity|].
    cbn [prefix_ci].
    destruct (canonicalize c =? canonicalize d); [|reflexivity].
    cbn [andb]. change (flags (query_regex q)) with (flags (query_regex (c :: q))) in IH.
    cbn [query_regex flags] in IH. rewrite IH.
    cbn [after before captures List.length firstn skipn rev].
    now rewrite <- app_assoc.
Qed.

Lemma match_at_query q prev rest :
  match_at canonicalize (query_regex q) prev rest
  = if prefix_ci canonicalize q rest
    then Some {| before := rev (firstn (List.length q) rest) ++ prev;
                 after := skipn (List.length q) rest;
                 captures := [(1%nat, firstn (List.length q) rest)] |}
    else None.
Proof.
  unfold match_at. cbn [query_regex matcher run_matcher].
  change {| global := true; ignoreCase := true; multiline := false |}
    with (flags (query_regex q)).
  rewrite run_matcher_literal. cbn [after before captures].
  destruct (prefix_ci canonicalize q rest) eqn:Hp; [|reflexivity].
  unfold consumed. cbn [after]. rewrite length_skipn.
  apply prefix_ci_length in Hp.
  replace (List.length rest - (List.length rest - List.length q))%nat
    with (List.length q) by lia.
  reflexivity.
Qed.

Lemma substitution_mark m pre post :
  substitution mark_replacement m pre post [(1%nat, m)] 1
  = mark_replacement_of m.
Proof. reflexivity. Qed.

Lemma replace_scan_marks q : q <> [] -> forall text prev skip,
  replace_scan canonicalize (query_regex q) mark_replacement prev text skip
    false
  = mark_all canonicalize q text skip.
Proof.
  intros Hq. induction text as [|c text IH]; intros prev skip.
  - cbn [replace_scan mark_all]. destruct skip; [|reflexivity].
    rewrite match_at_query. destruct q as [|a q]; [contradiction|].
    reflexivity.
  - cbn [replace_scan mark_all]. destruct skip as [|n].
    + rewrite match_at_query.
      destruct (prefix_ci canonicalize q (c :: text)) eqn:Hp.
      * cbn [after captures groups query_regex flags global negb].
        rewrite length_skipn.
        pose proof (prefix_ci_length _ _ Hp) as Hlen.
        replace (List.length (c :: text)
                 - (List.length (c :: text) - List.length q))%nat
          with (List.length q) by lia.
        destruct q as [|a q]; [contradiction|].
        cbn [List.length Nat.sub]. rewrite Nat.sub_0_r.
        now rewrite IH, substitution_mark.
      * now rewrite IH.
    + now rewrite IH.
Qed.
(** Without the escaping the constructor would throw on queries as
    simple as a parenthesis, a star, a bracket or a backslash. *)
Example unescaped_queries_throw :
  List.map (fun q => RegExp_new (lit "(" ++ lit q ++ lit ")") (lit "gi"))
    ["("; "*"; "["; "\"; ")"; "x{2,1}"]%string
  = [None; None; None; None; None; None].
Proof. vm_compute. reflexivity. Qed.

Example highlightQuery_marks_each_occurrence :
  highlightQuery ascii_upper (lit "Is a.b or A.B or axb (a.b)?") (lit "a.b")
  = Normal (lit "Is " ++ mark_replacement_of (lit "a.b") ++ lit " or "
            ++ mark_replacement_of (lit "A.B") ++ lit " or axb ("
            ++ mark_replacement_of (lit "a.b") ++ lit ")?").
Proof. vm_compute. reflexivity. Qed.

Example highlightQuery_takes_specials_literally :
  highlightQuery ascii_upper (lit "cost (in $) is 5*2+1") (lit "(in $)")
  = Normal (lit "cost " ++ mark_replacement_of (lit "(in $)")
            ++ lit " is 5*2+1")
  /\ highlightQuery ascii_upper (lit "cost (in $) is 5*2+1") (lit "5*2+")
     = Normal (lit "cost (in $) is " ++ mark_replacement_of (lit "5*2+")
               ++ lit "1").
Proof. split; vm_compute; reflexivity. Qed.

(** The constructor accepts the escaped query, whatever the query is, as
    one capturing group around the literal query. *)
Lemma RegExp_new_escaped query :
  RegExp_new (lit "(" ++ escape_all query ++ lit ")") (lit "gi")
  = Some (query_regex query).
Proof.
  unfold RegExp_new.
  change (parse_flags (lit "gi") _)
    with (Some {| global := true; ignoreCase := true; multiline := false |}).
  change (lit "(" ++ escape_all query ++ lit ")")
    with (40 :: escape_all query ++ [41]).
  now rewrite parse_pattern_escaped.
Qed.

(** The literal query is one run of text, as long as the query. *)
Lemma text_of_literal q :
  text_runs (literal q)
  = (N.of_nat (List.length q), N.of_nat (List.length q)).
Proof.
  induction q as [|c q IH]; [reflexivity|].
  cbn [literal text_runs is_text]. rewrite IH.
  cbn [List.length]. f_equal; lia.
Qed.

Lemma too_large_query q :
  too_large (query_regex q) = (max_text_length <? N.of_nat (List.length q)).
Proof.
  unfold too_large, longest_text. cbn [query_regex matcher text_runs is_text].
  rewrite text_of_literal. cbn [snd]. now rewrite N.max_0_r.
Qed.

Lemma length_escape_all q :
  (List.length (escape_all q) <= 2 * List.length q)%nat.
Proof.
  induction q as [|c q IH]; [reflexivity|].
  rewrite escape_all_cons, length_app. unfold escape_char.
  destruct (is_syntax_char c); cbn [List.length]; lia.
Qed.

Lemma length_mark_replacement_of m :
  List.length (mark_replacement_of m) = (39 + List.length m)%nat.
Proof.
  unfold mark_replacement_of. rewrite !length_app.
  change (List.length (lit "<mark className=")) with 16%nat.
  change (List.length (lit "bg-yellow-200")) with 13%nat.
  change (List.length (lit ">")) with 1%nat.
  change (List.length (lit "</mark>")) with 7%nat.
  cbn [List.length]. lia.
Qed.

(** Marking lengthens a text by 39 code units for each occurrence, and
    an occurrence takes at least one code unit of the text. *)
Lemma length_mark_all q : q <> [] -> forall text skip,
  (List.length (mark_all canonicalize q text skip)
   <= 40 * (List.length text - skip))%nat.
Proof.
  intros Hq. induction text as [|c text IH]; intros skip.
  - cbn [mark_all List.length]. lia.
  - cbn [mark_all]. destruct skip as [|n].
    + destruct (prefix_ci canonicalize q (c :: text)) eqn:Hp.
      * pose proof (prefix_ci_length _ _ Hp) as Hlen.
        rewrite length_app, length_mark_replacement_of, length_firstn.
        specialize (IH (List.length q - 1)%nat).
        destruct q as [|a q]; [contradiction|].
        cbn [List.length] in *. lia.
      * specialize (IH 0%nat). cbn [List.length]. lia.
    + specialize (IH n). cbn [List.length]. lia.
Qed.

(** The value of [highlightQuery] for a query that is not blank: the
    escaping and the constructor succeed, [text.replace] compiles the
    pattern and throws when the query is too long for the compiler, and
    the marked text is returned when it fits in a string. *)
Lemma highlightQuery_value text query :
  forallb is_trimmable query = false ->
  2 * N.of_nat (List.length query) + 2 <= max_string_length ->
  highlightQuery canonicalize text query
  = if max_text_length <? N.of_nat (List.length query)
    then Throw SyntaxError
    else new_string (mark_all canonicalize query text 0).
Proof.
  intros Hb Hfit. unfold highlightQuery.
  rewrite trim_truthy, negb_involutive, Hb, special_chars_built.
  unfold replace at 1.
  change (too_large special_chars) with false. cbv iota.
  rewrite escape_by_replace.
  pose proof (length_escape_all query) as Hlen.
  assert (He : fits (escape_all query) = true).
  { unfold fits. apply N.leb_le. lia. }
  assert (Hp : fits (lit "(" ++ escape_all query ++ lit ")") = true).
  { unfold fits. apply N.leb_le. rewrite !length_app.
    change (List.length (lit "(")) with 1%nat.
    change (List.length (lit ")")) with 1%nat. lia. }
  unfold new_string at 1. rewrite He.
  unfold new_string at 1. rewrite Hp.
  rewrite RegExp_new_escaped. unfold replace. rewrite too_large_query.
  destruct (max_text_length <? N.of_nat (List.length query)); [reflexivity|].
  rewrite replace_scan_marks; [reflexivity|].
  intros ->. discriminate Hb.
Qed.

Lemma forallb_repeat_false {A} (f : A -> bool) a n :
  f a = false -> n <> 0%nat -> forallb f (List.repeat a n) = false.
Proof.
  intros Ha Hn. destruct n as [|n]; [contradiction|].
  cbn [List.repeat forallb]. now rewrite Ha.
Qed.

(** C10: [highlightQuery] throws for a long query.  For the query made
    of 32768 letters [a] the replacement of line 60 returns the escaped
    query and the constructor accepts the pattern, as for every query; but
    [text.replace] then compiles a literal of 32768 code units, one more
    than the compiler takes, and throws a SyntaxError, whatever the text
    is. *)
Theorem highlightQuery_throws_on_a_long_query (text : jsstring) :
  let query := List.repeat 97 (N.to_nat 32768) in
  replace canonicalize query special_chars (lit "\$&")
  = Normal (escape_all query)
  /\ RegExp_new (lit "(" ++ escape_all query ++ lit ")") (lit "gi")
     = Some (query_regex query)
  /\ highlightQuery canonicalize text query = Throw SyntaxError.
Proof.
  intros query.
  assert (Hlen : N.of_nat (List.length query) = 32768).
  { unfold query. now rewrite repeat_length, N2Nat.id. }
  split; [|split].
  - unfold replace. change (too_large special_chars) with false. cbv iota.
    rewrite escape_by_replace. unfold new_string, fits.
    pose proof (length_escape_all query) as Hesc.
    replace (N.of_nat (List.length (escape_all query)) <=? max_string_length)
      with true; [reflexivity|].
    symmetry. apply N.leb_le. unfold max_string_length. lia.
  - apply RegExp_new_escaped.
  - rewrite highlightQuery_value.
    + now rewrite Hlen.
    + apply forallb_repeat_false; [reflexivity|lia].
    + rewrite Hlen. now vm_compute.
Qed.

End ReplaceFacts.
End RegExpFacts.

(** ** The search page and the conversation browser *)

Section SearchPageFacts.
Import JS Http SearchPage.

Variable number : Type.

Lemma failed_search_state (p : Page number) i o :
  try_data o = None ->
  state (settle i o p)
  = state (settle i (Response true (Some {| data_results := Some [] |})) p).
Proof.
  intros Ho. unfold settle. rewrite Ho.
  now destruct (nth_error (pending p) i).
Qed.

End SearchPageFacts.

(** C2, at a failing input: after a search for "dinner", a rejected
    fetch, a response that is not OK and an OK response with zero
    results leave the same state and render the same "No Results Found"
    panel; the failure only reaches the console. *)
Theorem failed_search_renders_no_results :
  let p := SearchPage.search
             (SearchPage.onChange (JS.lit "dinner")
                (SearchPage.initial (number := Z))) in
  let failed := SearchPage.settle 0 Http.NetworkError p in
  let refused := SearchPage.settle 0 (Http.Response false None) p in
  let empty :=
    SearchPage.settle 0
      (Http.Response true
         (Some {| SearchPage.data_results := Some [] |})) p in
  SearchPage.render (SearchPage.state failed) = SearchPage.NoResultsFound
  /\ SearchPage.render (SearchPage.state refused) = SearchPage.NoResultsFound
  /\ SearchPage.render (SearchPage.state empty) = SearchPage.NoResultsFound
  /\ SearchPage.state failed = SearchPage.state empty
  /\ SearchPage.console failed = [JS.lit "Search error:"]
  /\ SearchPage.console empty = [].
Proof. repeat split. Qed.

(** The sibling page tells a failure from an empty result: the
    conversation browser renders an error panel after a rejected fetch and
    the "No Conversations Found" panel after an empty list. *)
Example conversations_failure_shows_error_panel :
  let p := ConversationsPage.fetchConversations
             (ConversationsPage.initial (number := Z)) in
  ConversationsPage.render
    (ConversationsPage.state (ConversationsPage.settle 0 Http.NetworkError p))
  = ConversationsPage.ErrorPanel ConversationsPage.load_error
  /\ ConversationsPage.render
       (ConversationsPage.state
          (ConversationsPage.settle 0
             (Http.Response true
                (Some {| ConversationsPage.data_conversations := Some [] |}))
             p))
     = ConversationsPage.NoConversationsFound.
Proof. split; reflexivity. Qed.

(** ** The routes the client calls *)

Section RoutesFacts.
Import JS Http Routes.

Lemma issued_snoc {R} (l : list R) (r : R) : issued l (l ++ [r]) = [r].
Proof.
  unfold issued. rewrite skipn_app, skipn_all, Nat.sub_diag. reflexivity.
Qed.

Lemma issued_same {R} (l : list R) : issued l l = [].
Proof. unfold issued. apply skipn_all. Qed.

(** C7, as stated, fails: the search page calls [GET /search] and the
    conversation browser calls [GET /conversations], and neither is one of
    the two calls of the core. *)
Lemma search_and_browse_are_not_core_calls :
  let ps := SearchPage.search
              (SearchPage.onChange (lit "dinner")
                 (SearchPage.initial (number := Z))) in
  let pv := ConversationsPage.fetchConversations
              (ConversationsPage.initial (number := Z)) in
  client_calls ChatPage.initial ps pv
  = [ (GET, lit "http://localhost:8000/search?query=dinner&limit=20");
      (GET, lit "http://localhost:8000/conversations") ]
  /\ List.map (fun c => core_call (fst c) (snd c))
       (client_calls ChatPage.initial ps pv)
     = [None; None].
Proof. split; vm_compute; reflexivity. Qed.

(** C7 (amended): every call that the client issues goes to the backend
    at one of three routes: [POST /chat], which is the query call of the
    core, from the chat page; [GET /search] from the search page;
    [GET /conversations] from the conversation browser.  The indexing
    call is never issued. *)
Theorem client_calls_three_routes (number : Type) (pc : ChatPage.Page)
  (ps : SearchPage.Page number) (pv : ConversationsPage.Page number)
  (m : Method) (u : jsstring) :
  In (m, u) (client_calls pc ps pv) ->
  (m = POST /\ path_of u = Some (lit "/chat")
   /\ core_call m u = Some query)
  \/ (m = GET /\ path_of u = Some (lit "/search") /\ core_call m u = None)
  \/ (m = GET /\ path_of u = Some (lit "/conversations")
      /\ core_call m u = None).
Proof.
  unfold client_calls. rewrite !in_app_iff. intros [H|[H|H]].
  - left. unfold ChatPage.sendMessage in H.
    destruct (ChatPage.send_blocked (ChatPage.state pc)).
    + rewrite issued_same in H. contradiction.
    + cbn [ChatPage.pending] in H. rewrite issued_snoc in H.
      destruct H as [H|[]]. injection H as <- <-.
      repeat split.
  - right. left. unfold SearchPage.search in H.
    destruct (negb (truthy (trim (SearchPage.query (SearchPage.state ps))))).
    + rewrite issued_same in H. contradiction.
    + destruct (encodeURIComponent (SearchPage.query (SearchPage.state ps)))
        as [q|]; cbn [SearchPage.pending] in H.
      * rewrite issued_snoc in H. destruct H as [H|[]].
        injection H as <- <-.
        repeat split.
      * rewrite issued_same in H. contradiction.
  - right. right. cbn [ConversationsPage.fetchConversations
                         ConversationsPage.pending] in H.
    rewrite issued_snoc in H. destruct H as [H|[]]. injection H as <- <-.
    repeat split.
Qed.

Lemma client_calls_three_routes_witness :
  path_of (lit "http://localhost:8000/search?query=dinner%20plans&limit=20")
  = Some (lit "/search").
Proof.
  destruct (@client_calls_three_routes Z ChatPage.initial
              (SearchPage.search
                 (SearchPage.onChange (lit "dinner plans")
                    SearchPage.initial))
              (ConversationsPage.fetchConversations
                 ConversationsPage.initial)
              GET
              (lit "http://localhost:8000/search?query=dinner%20plans&limit=20"))
    as [[H _]|[(_ & H & _)|(_ & H & _)]].
  - left. reflexivity.
  - discriminate H.
  - exact H.
  - discriminate H.
Defined.

End RoutesFacts.

(** ** More on the chat page *)

Section TrimFacts.
Import JS.

Lemma trimStart_split s :
  exists pre, s = pre ++ trimStart s /\ forallb is_trimmable pre = true.
Proof.
  induction s as [|c s (pre & Hs & Hpre)].
  - now exists [].
  - cbn [trimStart]. destruct (is_trimmable c) eqn:Hc.
    + exists (c :: pre). split; [cbn; now f_equal|]. cbn. now rewrite Hc.
    + now exists [].
Qed.

Lemma trimStart_head s c r : trimStart s = c :: r -> is_trimmable c = false.
Proof.
  induction s as [|a s IH]; [discriminate|].
  cbn [trimStart]. destruct (is_trimmable a) eqn:Ha; [exact IH|].
  now intros [= <- _].
Qed.

(** [trim] cuts white space off both ends and nothing else. *)
Lemma trim_split s :
  exists pre post,
    s = pre ++ trim s ++ post
    /\ forallb is_trimmable pre = true
    /\ forallb is_trimmable post = true.
Proof.
  destruct (trimStart_split s) as (pre & Hs & Hpre).
  destruct (trimStart_split (rev (trimStart s))) as (post & Hr & Hpost).
  exists pre, (rev post). split; [|split; [exact Hpre|]].
  - unfold trim, trimEnd. rewrite <- rev_app_distr, <- Hr, rev_involutive.
    exact Hs.
  - rewrite forallb_rev. exact Hpost.
Qed.

Lemma trim_ends s c r :
  trim s = c :: r ->
  is_trimmable c = false /\ is_trimmable (last (c :: r) c) = false.
Proof.
  intros Ht. split.
  - destruct (trim_split s) as (pre & post & Hs & Hpre & Hpost).
    destruct (trimStart_split s) as (pre' & Hs' & Hpre').
    (* the head of trim s is the head of trimStart s *)
    unfold trim, trimEnd in Ht.
    destruct (trimStart_split (rev (trimStart s))) as (q & Hq & _).
    apply (f_equal (@rev N)) in Hq. rewrite rev_involutive, rev_app_distr in Hq.
    rewrite Ht in Hq. cbn [app] in Hq.
    apply (trimStart_head s Hq).
  - unfold trim, trimEnd in Ht.
    destruct (trimStart (rev (trimStart s))) as [|a l] eqn:Hl.
    + discriminate.
    + apply trimStart_head in Hl.
      assert (Hlast : last (rev (a :: l)) c = a).
      { cbn [rev]. apply last_last. }
      rewrite <- Ht, Hlast. exact Hl.
Qed.
End TrimFacts.

Section ChatPageMore.
Import JS Http VDom ChatPage.

(** X1: the query of an accepted send is the input with the white space
    at both ends cut off and nothing else changed; it is never empty, it
    neither starts nor ends with white space, and it is what the appended
    user message shows. *)
Theorem sent_query_is_the_trimmed_question p :
  send_blocked (state p) = false ->
  exists r pre post c rest,
    pending (sendMessage p) = pending p ++ [r]
    /\ messages (state (sendMessage p))
       = messages (state p)
         ++ [{| role := user; content := query (body r); sources := None |}]
    /\ input (state p) = pre ++ query (body r) ++ post
    /\ forallb is_trimmable pre = true
    /\ forallb is_trimmable post = true
    /\ query (body r) = c :: rest
    /\ is_trimmable c = false
    /\ is_trimmable (last (c :: rest) c) = false.
Proof.
  intros Hb. rewrite (sendMessage_accepted p Hb).
  cbn [pending state messages body query].
  destruct (trim_split (input (state p))) as (pre & post & Hs & Hpre & Hpost).
  assert (Hne : truthy (trim (input (state p))) = true).
  { unfold send_blocked in Hb. apply orb_false_elim in Hb as [Hb _].
    now apply negb_false_iff in Hb. }
  destruct (trim (input (state p))) as [|c rest] eqn:Ht; [discriminate|].
  destruct (trim_ends _ Ht) as [Hc Hl].
  eexists. exists pre, post, c, rest. cbn [body query].
  repeat split; try assumption. unfold question. now rewrite Ht.
Qed.

Lemma sent_query_is_the_trimmed_question_witness :
  let p := onChange (lit "  hi there ") initial in
  exists r pre post c rest,
    pending (sendMessage p) = pending p ++ [r]
    /\ messages (state (sendMessage p))
       = messages (state p)
         ++ [{| role := user; content := query (body r); sources := None |}]
    /\ input (state p) = pre ++ query (body r) ++ post
    /\ forallb is_trimmable pre = true
    /\ forallb is_trimmable post = true
    /\ query (body r) = c :: rest
    /\ is_trimmable c = false
    /\ is_trimmable (last (c :: rest) c) = false.
Proof.
  intros p. apply (@sent_query_is_the_trimmed_question p). reflexivity.
Defined.

Lemma alternates_skipn ms : forall k first,
  alternates first ms = true ->
  alternates (if Nat.even k then first else flip first) (skipn k ms) = true.
Proof.
  induction ms as [|m ms IH]; intros k first H.
  - now destruct k.
  - destruct k as [|k]; [exact H|].
    cbn [skipn]. cbn [alternates] in H. apply andb_prop in H as [_ H].
    specialize (IH k (flip first) H).
    rewrite Nat.even_succ, <- Nat.negb_even.
    destruct (Nat.even k); cbn [negb]; [exact IH|].
    now rewrite flip_involutive in IH.
Qed.

(** X2: on a reachable page the history of an accepted send holds whole
    turns: at most ten messages, an even number of them, alternating from
    a user message, so no answer is sent without its question. *)
Theorem history_holds_whole_turns p :
  reachable p ->
  send_blocked (state p) = false ->
  exists r,
    pending (sendMessage p) = [r]
    /\ alternates user (conversation_history (body r)) = true
    /\ Nat.even (List.length (conversation_history (body r))) = true
    /\ List.length (conversation_history (body r)) <= 10.
Proof.
  intros Hr Hb. destruct (reachable_consistent Hr) as [Halt Hc].
  assert (Hl : isLoading (state p) = false).
  { unfold send_blocked in Hb. now apply orb_false_elim in Hb as [_ Hb]. }
  rewrite Hl in Hc. destruct Hc as [Hp Hev].
  rewrite (sendMessage_accepted p Hb), Hp. cbn [pending app].
  eexists. split; [reflexivity|]. cbn [body conversation_history].
  rewrite slice_from_last10.
  set (ms := messages (state p)) in *.
  assert (Hk : Nat.even (List.length ms - 10) = true).
  { destruct (Nat.le_gt_cases 10 (List.length ms)) as [Hge|Hlt].
    - rewrite Nat.even_sub by exact Hge. now rewrite Hev.
    - replace (List.length ms - 10) with 0 by lia. reflexivity. }
  split.
  - pose proof (@alternates_skipn ms (List.length ms - 10) user Halt) as H.
    now rewrite Hk in H.
  - rewrite length_skipn. split; [|lia].
    destruct (Nat.le_gt_cases 10 (List.length ms)) as [Hge|Hlt].
    + replace (List.length ms - (List.length ms - 10)) with 10 by lia.
      reflexivity.
    + replace (List.length ms - (List.length ms - 10))
        with (List.length ms) by lia. exact Hev.
Qed.

Lemma history_holds_whole_turns_witness :
  let p := run initial [Change (lit "one"); ClickSend;
                        Settle 0 NetworkError; Change (lit "two")] in
  exists r,
    pending (sendMessage p) = [r]
    /\ alternates user (conversation_history (body r)) = true
    /\ Nat.even (List.length (conversation_history (body r))) = true
    /\ List.length (conversation_history (body r)) <= 10.
Proof.
  intros p. apply (@history_holds_whole_turns p); [|reflexivity].
  eexists; reflexivity.
Defined.

Lemma settle_pending_single i o p rq :
  pending p = [rq] -> nth_error (pending p) i <> None ->
  pending (settle i o p) = [].
Proof.
  intros Hp Hn. unfold settle. rewrite Hp in *.
  destruct i as [|i]; [reflexivity|]. destruct i; now elim Hn.
Qed.

(** X3: on a reachable page a pending request answers the last message:
    it is the only pending request, the last message is the user message
    holding its query, its history is the window of the messages before
    that one, and when it settles the reply is appended right after the
    question. *)
Theorem pending_request_belongs_to_last_question p r :
  reachable p ->
  In r (pending p) ->
  exists older,
    messages (state p)
    = older ++ [{| role := user; content := query (body r);
                   sources := None |}]
    /\ conversation_history (body r) = slice_from (-10) older
    /\ method r = POST
    /\ url r = lit "http://localhost:8000/chat"
    /\ pending p = [r]
    /\ forall o,
         messages (state (settle 0 o p))
         = older ++ [{| role := user; content := query (body r);
                        sources := None |}; reply o].
Proof.
  intros Hr Hin.
  assert (Hone : pending p = [r]).
  { destruct (reachable_consistent Hr) as [_ Hc].
    destruct (isLoading (state p)); destruct Hc as [Hp _].
    - destruct (pending p) as [|rq [|rq' l]]; try discriminate.
      now destruct Hin as [<-|[]].
    - rewrite Hp in Hin. contradiction. }
  cut (exists older,
          messages (state p)
          = older ++ [{| role := user; content := query (body r);
                         sources := None |}]
          /\ conversation_history (body r) = slice_from (-10) older
          /\ method r = POST
          /\ url r = lit "http://localhost:8000/chat").
  { intros (older & Hm & Hh & Hme & Hu). exists older.
    repeat split; try assumption.
    intros o. unfold settle. rewrite Hone. cbn [nth_error state messages].
    now rewrite Hm, <- app_assoc. }
  clear Hone. revert r Hin. destruct Hr as [es ->]. intros r. revert r.
  induction es as [|e es IH] using rev_ind; intros r Hin; [contradiction|].
  rewrite run_snoc in Hin |- *.
  set (p := run initial es) in *.
  assert (Hr : reachable p) by (now exists es).
  destruct (reachable_consistent Hr) as [_ Hc].
  assert (Hsend : forall r, In r (pending (sendMessage p)) ->
            exists older,
              messages (state (sendMessage p))
              = older ++ [{| role := user; content := query (body r);
                             sources := None |}]
              /\ conversation_history (body r) = slice_from (-10) older
              /\ method r = POST
              /\ url r = lit "http://localhost:8000/chat").
  { intros r0 Hin0. destruct (send_blocked (state p)) eqn:Hb.
    - rewrite sendMessage_blocked in Hin0 |- * by assumption. now apply IH.
    - rewrite sendMessage_accepted in Hin0 |- * by assumption.
      unfold send_blocked in Hb. apply orb_false_elim in Hb as [_ Hl].
      rewrite Hl in Hc. destruct Hc as [Hp _].
      cbn [pending] in Hin0. rewrite Hp in Hin0.
      destruct Hin0 as [<-|[]].
      exists (messages (state p)). repeat split. }
  destruct e as [v|k sh| |i o]; cbn [step] in Hin |- *.
  - now apply IH.
  - unfold handleKeyPress in Hin |- *.
    destruct (jsstring_eqb k (lit "Enter") && negb sh);
      [now apply Hsend | now apply IH].
  - now apply Hsend.
  - destruct (nth_error (pending p) i) eqn:Hn.
    + destruct (isLoading (state p)).
      * destruct Hc as [Hlen _].
        destruct (pending p) as [|rq [|rq' l]] eqn:Hp; try discriminate.
        rewrite (@settle_pending_single i o p rq Hp) in Hin;
          [contradiction|]. rewrite Hp, Hn. discriminate.
      * destruct Hc as [Hp _]. rewrite Hp in Hn. destruct i; discriminate.
    + unfold settle in Hin |- *. rewrite Hn in Hin |- *. now apply IH.
Qed.

Lemma pending_request_belongs_to_last_question_witness :
  let p := run initial [Change (lit "one"); ClickSend;
                        Settle 0 NetworkError; Change (lit " two ");
                        KeyPress (lit "Enter") false] in
  let r := hd {| method := GET; url := []; headers := [];
                 body := {| query := []; conversation_history := [] |} |}
              (pending p) in
  exists older,
    messages (state p)
    = older ++ [{| role := user; content := query (body r);
                   sources := None |}]
    /\ conversation_history (body r) = slice_from (-10) older
    /\ method r = POST
    /\ url r = lit "http://localhost:8000/chat"
    /\ pending p = [r]
    /\ forall o,
         messages (state (settle 0 o p))
         = older ++ [{| role := user; content := query (body r);
                        sources := None |}; reply o].
Proof.
  intros p r.
  apply (@pending_request_belongs_to_last_question p r).
  - eexists; reflexivity.
  - left. reflexivity.
Defined.

Lemma turn_pending p o :
  send_blocked (state p) = false -> pending (turn o p) = pending p.
Proof.
  intros Hb. unfold turn. rewrite (sendMessage_accepted p Hb).
  unfold settle. cbn [pending]. rewrite nth_error_last_snoc.
  cbn [pending]. rewrite length_app. cbn [List.length].
  replace (List.length (pending p) + 1 - 1) with (List.length (pending p))
    by lia.
  rewrite firstn_app, firstn_all, Nat.sub_diag. cbn [firstn].
  rewrite app_nil_r.
  replace (S (List.length (pending p))) with (List.length (pending p ++ [
    {| method := POST; url := origin ++ lit "/chat";
       headers := [(lit "Content-Type", lit "application/json")];
       body := {| query := trim (input (state p));
                  conversation_history :=
                    slice_from (-10) (messages (state p)) |} |}]))
    by (rewrite length_app; cbn; lia).
  rewrite skipn_all. apply app_nil_r.
Qed.

(** X4: the turn just completed always ends the next history: after a
    turn with any outcome, the fixed error text included, the next
    accepted send carries that question and that reply as the last two
    entries of its conversation history. *)
Theorem previous_turn_ends_next_history p o v :
  send_blocked (state p) = false ->
  send_blocked (state (onChange v (turn o p))) = false ->
  exists r pre,
    pending (sendMessage (onChange v (turn o p))) = pending p ++ [r]
    /\ query (body r) = trim v
    /\ conversation_history (body r) = pre ++ [question p; reply o].
Proof.
  intros Hb Hb'. rewrite (sendMessage_accepted _ Hb').
  cbn [pending onChange state messages input].
  rewrite (@turn_pending p o Hb), (@turn_messages p o Hb).
  eexists. exists (skipn (List.length (messages (state p)) + 2 - 10)
                         (messages (state p))).
  split; [reflexivity|]. cbn [body query conversation_history].
  split; [reflexivity|].
  rewrite slice_from_last10, length_app. cbn [List.length].
  rewrite skipn_app.
  replace (List.length (messages (state p)) + 2 - 10
           - List.length (messages (state p))) with 0 by lia.
  reflexivity.
Qed.

Lemma previous_turn_ends_next_history_witness :
  exists r pre,
    pending (sendMessage
               (onChange (lit "again")
                  (turn (Response false None) (onChange (lit "hi") initial))))
    = [r]
    /\ query (body r) = lit "again"
    /\ conversation_history (body r)
       = pre ++ [ {| role := user; content := lit "hi"; sources := None |};
                  {| role := assistant; content := error_text;
                     sources := None |} ].
Proof.
  apply (@previous_turn_ends_next_history
           (onChange (lit "hi") initial) (Response false None) (lit "again"));
    reflexivity.
Defined.

(** X5: on a reachable page the textarea is disabled and the dots are
    shown exactly while a request is pending; a disabled Send button means
    that a send would change nothing, an enabled one that nothing is
    pending and that a send issues one request, empties the input and
    disables both controls. *)
Theorem controls_follow_the_pending_request p :
  reachable p ->
  textarea_disabled (controls (state p))
  = negb (Nat.eqb (List.length (pending p)) 0)
  /\ dots_shown (messagesArea (state p))
     = negb (Nat.eqb (List.length (pending p)) 0)
  /\ (if button_disabled (controls (state p))
      then sendMessage p = p
      else pending p = []
           /\ List.length (pending (sendMessage p)) = 1
           /\ button_disabled (controls (state (sendMessage p))) = true
           /\ textarea_disabled (controls (state (sendMessage p))) = true
           /\ textarea_value (controls (state (sendMessage p))) = []).
Proof.
  intros Hr. destruct (reachable_consistent Hr) as [_ Hc].
  cbn [controls messagesArea textarea_disabled dots_shown button_disabled].
  assert (Hpend : isLoading (state p)
                  = negb (Nat.eqb (List.length (pending p)) 0)).
  { destruct (isLoading (state p)); destruct Hc as [Hp _]; now rewrite Hp. }
  split; [exact Hpend|]. split; [exact Hpend|].
  change (negb (truthy (trim (input (state p)))) || isLoading (state p))
    with (send_blocked (state p)).
  destruct (send_blocked (state p)) eqn:Hb.
  - now apply sendMessage_blocked.
  - assert (Hl : isLoading (state p) = false).
    { unfold send_blocked in Hb. now apply orb_false_elim in Hb as [_ Hb]. }
    rewrite Hl in Hc. destruct Hc as [Hp _].
    rewrite (sendMessage_accepted p Hb), Hp.
    cbn [pending state isLoading input app List.length trim].
    repeat split; try apply orb_true_r.
Qed.

Lemma controls_follow_the_pending_request_witness :
  let p := run initial [Change (lit "hi")] in
  button_disabled (controls (state p)) = false
  /\ List.length (pending (sendMessage p)) = 1.
Proof.
  intros p.
  assert (Hr : reachable p) by (eexists; reflexivity).
  destruct (controls_follow_the_pending_request Hr) as (_ & _ & H).
  split; [reflexivity|].
  change (button_disabled (controls (state p))) with false in H.
  apply H.
Defined.

Lemma step_appends p e :
  exists more, messages (state (step p e)) = messages (state p) ++ more.
Proof.
  assert (Hsend : exists more,
            messages (state (sendMessage p)) = messages (state p) ++ more).
  { unfold sendMessage. destruct (send_blocked (state p)).
    - exists []. now rewrite app_nil_r.
    - eexists. reflexivity. }
  destruct e as [v|k sh| |i o]; cbn [step].
  - exists []. now rewrite app_nil_r.
  - unfold handleKeyPress.
    destruct (jsstring_eqb k (lit "Enter") && negb sh); [exact Hsend|].
    exists []. now rewrite app_nil_r.
  - exact Hsend.
  - unfold settle. destruct (nth_error (pending p) i).
    + eexists. reflexivity.
    + exists []. now rewrite app_nil_r.
Qed.

(** X6: messages are only ever appended: after any sequence of events
    the earlier messages are still there, unchanged and in order, with one
    bubble each, so the opening hint never comes back once a message
    exists. *)
Theorem messages_are_append_only es : forall p,
  exists more,
    messages (state (run p es)) = messages (state p) ++ more
    /\ hint_shown (messagesArea (state (run p es)))
       = hint_shown (messagesArea (state p))
         && Nat.eqb (List.length more) 0
    /\ List.length (bubbles (messagesArea (state (run p es))))
       = List.length (bubbles (messagesArea (state p))) + List.length more.
Proof.
  assert (Hrun : forall p, exists more,
            messages (state (run p es)) = messages (state p) ++ more).
  { induction es as [|e es IH]; intros p.
    - exists []. now rewrite app_nil_r.
    - cbn [run fold_left]. destruct (step_appends p e) as [m1 H1].
      destruct (IH (step p e)) as [m2 H2]. exists (m1 ++ m2).
      unfold run in H2. now rewrite H2, H1, app_assoc. }
  intros p. destruct (Hrun p) as [more H]. exists more.
  split; [exact H|]. cbn [messagesArea hint_shown bubbles].
  rewrite H, !length_map, length_app. split; [|reflexivity].
  destruct (messages (state p)); destruct more; reflexivity.
Qed.
End ChatPageMore.

(** ** More on the search page *)

Section EncodeFacts.
Import JS.
Local Open Scope N_scope.

Lemma unreserved_is_ascii c : is_uri_unreserved c = true -> c < 128.
Proof.
  unfold is_uri_unreserved, is_ascii_alnum.
  rewrite !orb_true_iff, !andb_true_iff, !N.leb_le, !N.eqb_eq. lia.
Qed.

Lemma unreserved_not_surrogate c :
  is_uri_unreserved c = true ->
  is_high_surrogate c = false /\ is_low_surrogate c = false.
Proof.
  intros H. apply unreserved_is_ascii in H.
  unfold is_high_surrogate, is_low_surrogate.
  split; apply andb_false_iff; left; apply N.leb_gt; lia.
Qed.

Lemma high_not_low c : is_high_surrogate c = true -> is_low_surrogate c = false.
Proof.
  unfold is_high_surrogate, is_low_surrogate.
  rewrite andb_true_iff, !N.leb_le. intros [_ H].
  apply andb_false_iff. left. apply N.leb_gt. lia.
Qed.

(** [encodeURIComponent] throws exactly on the strings with a lone
    surrogate. *)
Lemma encodeURIComponent_defined s :
  match encodeURIComponent s with
  | Some _ => well_formed s = true
  | None => well_formed s = false
  end.
Proof.
  remember (List.length s) as n eqn:Hn.
  revert s Hn. induction n as [n IH] using lt_wf_ind. intros s Hn.
  destruct s as [|c s]; [reflexivity|].
  cbn [encodeURIComponent well_formed].
  destruct (is_uri_unreserved c) eqn:Hu.
  - destruct (unreserved_not_surrogate c Hu) as [-> ->].
    specialize (IH (List.length s) ltac:(subst n; cbn; lia) s eq_refl).
    now destruct (encodeURIComponent s).
  - destruct (is_low_surrogate c) eqn:Hlow.
    + destruct (is_high_surrogate c) eqn:Hhigh; [|reflexivity].
      apply high_not_low in Hhigh. congruence.
    + destruct (is_high_surrogate c) eqn:Hhigh.
      * destruct s as [|d s]; [reflexivity|].
        destruct (is_low_surrogate d); [|reflexivity].
        specialize (IH (List.length s) ltac:(subst n; cbn; lia) s eq_refl).
        cbn [andb]. now destruct (encodeURIComponent s).
      * specialize (IH (List.length s) ltac:(subst n; cbn; lia) s eq_refl).
        now destruct (encodeURIComponent s).
Qed.

Lemma hex_digit_safe d : d < 16 -> is_url_safe (hex_digit d) = true.
Proof.
  intros H. unfold is_url_safe, is_uri_unreserved, is_ascii_alnum, hex_digit.
  destruct (d <? 10) eqn:Hd.
  - apply N.ltb_lt in Hd.
    replace ((48 <=? 48 + d) && (48 + d <=? 57)) with true; [reflexivity|].
    symmetry. apply andb_true_iff. split; apply N.leb_le; lia.
  - apply N.ltb_ge in Hd.
    replace ((65 <=? 55 + d) && (55 + d <=? 90)) with true;
      [now rewrite orb_true_r|].
    symmetry. apply andb_true_iff. split; apply N.leb_le; lia.
Qed.

Lemma percent_octet_safe b :
  b < 256 -> forallb is_url_safe (percent_octet b) = true.
Proof.
  intros H. unfold percent_octet. cbn [forallb].
  rewrite !hex_digit_safe; [reflexivity| |].
  - apply N.mod_lt. discriminate.
  - apply N.Div0.div_lt_upper_bound. exact H.
Qed.

Lemma utf8_octets_bytes v :
  v < 2097152 -> Forall (fun b => b < 256) (utf8_octets v).
Proof.
  intros H. unfold utf8_octets.
  assert (H64 : v mod 64 < 64) by (apply N.mod_lt; discriminate).
  assert (H64' : (v / 64) mod 64 < 64) by (apply N.mod_lt; discriminate).
  assert (H64'' : (v / 4096) mod 64 < 64) by (apply N.mod_lt; discriminate).
  destruct (v <? 128) eqn:H1; [apply N.ltb_lt in H1; repeat constructor; lia|].
  destruct (v <? 2048) eqn:H2.
  { apply N.ltb_lt in H2.
    assert (v / 64 < 32) by (apply N.Div0.div_lt_upper_bound; exact H2).
    repeat constructor; lia. }
  destruct (v <? 65536) eqn:H3.
  { apply N.ltb_lt in H3.
    assert (v / 4096 < 16) by (apply N.Div0.div_lt_upper_bound; exact H3).
    repeat constructor; lia. }
  assert (v / 262144 < 8) by (apply N.Div0.div_lt_upper_bound; exact H).
  repeat constructor; lia.
Qed.

Lemma percent_encode_safe v :
  v < 2097152 -> forallb is_url_safe (percent_encode v) = true.
Proof.
  intros H. unfold percent_encode.
  pose proof (utf8_octets_bytes H) as Hb.
  induction Hb as [|b l Hb _ IH]; [reflexivity|].
  cbn [flat_map]. now rewrite forallb_app, percent_octet_safe, IH.
Qed.

Lemma encodeURIComponent_safe s : forall e,
  forallb (fun c => c <? 65536) s = true ->
  encodeURIComponent s = Some e ->
  forallb is_url_safe e = true.
Proof.
  remember (List.length s) as n eqn:Hn.
  revert s Hn. induction n as [n IH] using lt_wf_ind. intros s Hn e Hs He.
  destruct s as [|c s]; [now injection He as <-|].
  cbn [forallb] in Hs. apply andb_prop in Hs as [Hc Hs].
  apply N.ltb_lt in Hc.
  cbn [encodeURIComponent] in He.
  destruct (is_uri_unreserved c) eqn:Hu.
  - destruct (encodeURIComponent s) as [e'|] eqn:He'; [|discriminate].
    injection He as <-. cbn [forallb]. unfold is_url_safe at 1. rewrite Hu.
    apply (IH (List.length s) ltac:(subst n; cbn; lia) s eq_refl e' Hs He').
  - destruct (is_low_surrogate c); [discriminate|].
    destruct (is_high_surrogate c) eqn:Hhigh.
    + destruct s as [|d s]; [discriminate|].
      destruct (is_low_surrogate d) eqn:Hlow; [|discriminate].
      destruct (encodeURIComponent s) as [e'|] eqn:He'; [|discriminate].
      injection He as <-. cbn [forallb] in Hs.
      apply andb_prop in Hs as [Hd Hs]. apply N.ltb_lt in Hd.
      rewrite forallb_app. apply andb_true_iff. split.
      * apply percent_encode_safe.
        unfold is_high_surrogate in Hhigh. unfold is_low_surrogate in Hlow.
        apply andb_prop in Hhigh as [_ Hh]. apply andb_prop in Hlow as [_ Hl].
        apply N.leb_le in Hh, Hl. lia.
      * apply (IH (List.length s) ltac:(subst n; cbn; lia) s eq_refl e' Hs He').
    + destruct (encodeURIComponent s) as [e'|] eqn:He'; [|discriminate].
      injection He as <-. rewrite forallb_app. apply andb_true_iff. split.
      * apply percent_encode_safe. lia.
      * apply (IH (List.length s) ltac:(subst n; cbn; lia) s eq_refl e' Hs He').
Qed.

Lemma split_on_before_sep sep a b :
  forallb (fun c => negb (c =? sep)) a = true ->
  split_on sep (a ++ sep :: b) = a :: split_on sep b.
Proof.
  induction a as [|c a IH]; intros H.
  - cbn [app split_on]. now rewrite N.eqb_refl.
  - cbn [forallb] in H. apply andb_prop in H as [Hc H].
    cbn [app split_on]. apply negb_true_iff in Hc. rewrite Hc, IH by exact H.
    reflexivity.
Qed.

Lemma url_safe_not_ampersand e :
  forallb is_url_safe e = true ->
  forallb (fun c => negb (c =? 38)) e = true.
Proof.
  intros H. rewrite forallb_forall in H |- *. intros c Hin.
  specialize (H c Hin). apply negb_true_iff, N.eqb_neq. intros ->.
  discriminate H.
Qed.
End EncodeFacts.

Section SearchPageMore.
Import JS Http Routes SearchPage.
Local Open Scope N_scope.

Variable number : Type.

Lemma search_accepted (p : Page number) enc :
  truthy (trim (query (state p))) = true ->
  encodeURIComponent (query (state p)) = Some enc ->
  search p
  = {| state := {| query := query (state p); results := results (state p);
                   isLoading := true; hasSearched := true |};
       pending :=
         pending p
         ++ [{| method := GET;
                url := origin ++ lit "/search?query=" ++ enc
                       ++ lit "&limit=20" |}];
       console := console p |}.
Proof. intros Ht He. unfold search. now rewrite Ht, He. Qed.

(** X7: a search issues a request exactly when the query is not blank
    and has no lone surrogate.  A blank query changes nothing; a query
    with a lone surrogate makes [encodeURIComponent] throw inside the
    [try] block, so no request is issued, the failure goes to the console
    and the page shows "No Results Found". *)
Theorem search_issues_a_request_iff_query_is_sendable (p : Page number) :
  let q := query (state p) in
  if truthy (trim q) then
    if well_formed q then
      exists r,
        pending (search p) = pending p ++ [r]
        /\ render (state (search p)) = Skeleton
        /\ console (search p) = console p
    else
      pending (search p) = pending p
      /\ render (state (search p)) = NoResultsFound
      /\ console (search p) = console p ++ [lit "Search error:"]
  else search p = p.
Proof.
  intros q. subst q. unfold search.
  pose proof (encodeURIComponent_defined (query (state p))) as Hd.
  destruct (truthy (trim (query (state p)))); cbn [negb]; [|reflexivity].
  destruct (encodeURIComponent (query (state p))) as [e|]; rewrite Hd.
  - eexists. repeat split.
  - repeat split.
Qed.

(** X8: whatever the user types, the query string of the search URL has
    exactly the two parameters [query] and [limit=20]: the encoded query
    holds only unreserved characters and percent signs, so it cannot add
    or end a parameter. *)
Theorem search_url_has_two_parameters (p : Page number) enc :
  forallb (fun c => c <? 65536) (query (state p)) = true ->
  truthy (trim (query (state p))) = true ->
  encodeURIComponent (query (state p)) = Some enc ->
  exists r,
    pending (search p) = pending p ++ [r]
    /\ method r = GET
    /\ path_of (url r) = Some (lit "/search")
    /\ split_on 38 (after_first 63 (url r))
       = [lit "query=" ++ enc; lit "limit=20"]
    /\ forallb is_url_safe enc = true.
Proof.
  intros Hu Ht He. rewrite (search_accepted p Ht He). cbn [pending].
  eexists. split; [reflexivity|]. cbn [method url].
  pose proof (encodeURIComponent_safe _ Hu He) as Hsafe.
  repeat split; [|exact Hsafe].
  change (after_first 63 (origin ++ lit "/search?query=" ++ enc
                          ++ lit "&limit=20"))
    with ((lit "query=" ++ enc) ++ 38 :: lit "limit=20").
  rewrite split_on_before_sep; [reflexivity|].
  rewrite forallb_app. apply andb_true_iff. split; [reflexivity|].
  now apply url_safe_not_ampersand.
Qed.

Lemma search_keeps_query (p : Page number) :
  query (state (search p)) = query (state p).
Proof.
  unfold search. destruct (negb _); [reflexivity|].
  now destruct (encodeURIComponent _).
Qed.

Lemma search_run_snoc (p : Page number) es e :
  run p (es ++ [e]) = step (run p es) e.
Proof. unfold run. now rewrite fold_left_app. Qed.

(** X9: the search page has no in-flight guard.  With a sendable query,
    every press of Enter issues one more request, also while the page is
    loading and the button is disabled; when any one of the pending
    requests settles, its payload replaces the results and the page stops
    showing as loading although the others are still pending. *)
Theorem search_has_no_in_flight_guard (p : Page number) (n : nat) :
  truthy (trim (query (state p))) = true ->
  well_formed (query (state p)) = true ->
  let p' := run p (repeat (KeyPress (lit "Enter")) n) in
  List.length (pending p') = (List.length (pending p) + n)%nat
  /\ ((0 < n)%nat -> button_disabled (controls (state p')) = true)
  /\ forall i o, (i < List.length (pending p'))%nat ->
       isLoading (state (settle i o p')) = false
       /\ List.length (pending (settle i o p'))
          = (List.length (pending p') - 1)%nat
       /\ results (state (settle i o p'))
          = match try_data o with
            | Some data => results_or_empty data
            | None => []
            end.
Proof.
  intros Ht Hw p'.
  assert (Hrun : query (state p') = query (state p)
                 /\ List.length (pending p')
                    = (List.length (pending p) + n)%nat
                 /\ ((0 < n)%nat -> isLoading (state p') = true)).
  { subst p'. induction n as [|n IH].
    - cbn. repeat split; lia.
    - replace (S n) with (n + 1)%nat by lia.
      rewrite repeat_app. cbn [repeat]. rewrite search_run_snoc.
      set (pn := run p (repeat (KeyPress (lit "Enter")) n)) in *.
      destruct IH as (Hq & Hlen & _).
      cbn [step]. unfold handleKeyPress.
      change (jsstring_eqb (lit "Enter") (lit "Enter")) with true.
      cbv iota.
      pose proof (encodeURIComponent_defined (query (state pn))) as Hd.
      rewrite Hq in Hd.
      destruct (encodeURIComponent (query (state p))) as [e|] eqn:He;
        [|congruence].
      rewrite (@search_accepted pn e); rewrite ?Hq; try assumption.
      cbn [state pending query isLoading]. rewrite length_app. cbn.
      repeat split; lia. }
  destruct Hrun as (Hq & Hlen & Hload).
  split; [exact Hlen|]. split.
  - intros Hn. cbn [controls button_disabled]. rewrite (Hload Hn).
    apply orb_true_r.
  - intros i o Hi. unfold settle.
    destruct (nth_error (pending p') i) eqn:Hnth.
    + assert (Hl : List.length (firstn i (pending p')
                                ++ skipn (S i) (pending p'))
                   = (List.length (pending p') - 1)%nat).
      { rewrite length_app, length_firstn, length_skipn. lia. }
      destruct (try_data o); cbn [state isLoading pending results];
        now repeat split.
    + apply nth_error_None in Hnth. lia.
Qed.


Lemma step_keeps_hasSearched (p : Page number) e :
  hasSearched (state p) = true -> hasSearched (state (step p e)) = true.
Proof.
  intros H.
  assert (Hs : hasSearched (state (search p)) = true).
  { unfold search. destruct (negb _); [exact H|].
    now destruct (encodeURIComponent _). }
  destruct e as [v|k| |i o]; cbn [step].
  - exact H.
  - unfold handleKeyPress. now destruct (jsstring_eqb _ _).
  - exact Hs.
  - unfold settle. destruct (nth_error _ _); [|exact H].
    now destruct (try_data o).
Qed.

Lemma run_keeps_hasSearched es : forall p : Page number,
  hasSearched (state p) = true -> hasSearched (state (run p es)) = true.
Proof.
  induction es as [|e es IH]; intros p H; [exact H|].
  cbn [run fold_left]. apply IH. now apply step_keeps_hasSearched.
Qed.

Lemma step_before_first_search (p : Page number) e :
  hasSearched (state p) = false /\ isLoading (state p) = false
  /\ results (state p) = [] /\ pending p = [] /\ console p = [] ->
  hasSearched (state (step p e)) = true
  \/ (hasSearched (state (step p e)) = false
      /\ isLoading (state (step p e)) = false
      /\ results (state (step p e)) = [] /\ pending (step p e) = []
      /\ console (step p e) = []).
Proof.
  intros (Hh & Hl & Hr & Hp & Hc).
  assert (Hs : hasSearched (state (search p)) = true
               \/ (hasSearched (state (search p)) = false
                   /\ isLoading (state (search p)) = false
                   /\ results (state (search p)) = []
                   /\ pending (search p) = [] /\ console (search p) = [])).
  { unfold search. destruct (negb _); [now right|].
    left. now destruct (encodeURIComponent _). }
  destruct e as [v|k| |i o]; cbn [step].
  - now right.
  - unfold handleKeyPress. destruct (jsstring_eqb _ _); [exact Hs|now right].
  - exact Hs.
  - right. unfold settle. rewrite Hp. now destruct i.
Qed.

(** X11: the introduction is shown until the first search is accepted
    and never again: before it nothing is pending and the console is
    empty; after it no sequence of events brings the introduction back. *)
Theorem introduction_is_shown_until_the_first_search es :
  let p := run (initial (number := number)) es in
  if hasSearched (state p)
  then forall es', render (state (run p es')) <> Introduction
  else render (state p) = Introduction
       /\ pending p = [] /\ console p = [].
Proof.
  intros p.
  assert (Hinv : hasSearched (state p) = true
                 \/ (hasSearched (state p) = false
                     /\ isLoading (state p) = false
                     /\ results (state p) = [] /\ pending p = []
                     /\ console p = [])).
  { subst p. induction es as [|e es IH] using rev_ind.
    - right. repeat split.
    - unfold run in *. rewrite fold_left_app. cbn [fold_left].
      destruct IH as [IH|IH].
      + left. now apply step_keeps_hasSearched.
      + now apply step_before_first_search. }
  destruct Hinv as [H|(H & Hl & Hr & Hp & Hc)]; rewrite H.
  - intros es'.
    pose proof (run_keeps_hasSearched es' p H) as H'.
    unfold render. destruct (isLoading _); [discriminate|]. rewrite H'.
    destruct (results _); discriminate.
  - unfold render. rewrite Hl, H. now repeat split.
Qed.

End SearchPageMore.

Section SearchPageWitnesses.
Import JS Http Routes SearchPage.
Local Open Scope N_scope.

Lemma search_url_has_two_parameters_witness :
  exists r,
    pending (search (onChange (lit "a&b=c d") (initial (number := Z))))
    = [r]
    /\ split_on 38 (after_first 63 (url r))
       = [lit "query=a%26b%3Dc%20d"; lit "limit=20"].
Proof.
  destruct (@search_url_has_two_parameters Z
              (onChange (lit "a&b=c d") initial) (lit "a%26b%3Dc%20d")
              eq_refl eq_refl eq_refl)
    as (r & H1 & _ & _ & H4 & _).
  exists r. split; [exact H1 | exact H4].
Defined.

Lemma search_has_no_in_flight_guard_witness :
  let p := onChange (lit "dinner") (initial (number := Z)) in
  List.length (pending (run p (repeat (KeyPress (lit "Enter")) 3))) = 3%nat.
Proof.
  intros p.
  exact (proj1 (@search_has_no_in_flight_guard Z p 3 eq_refl eq_refl)).
Defined.


End SearchPageWitnesses.

(** ** More on [highlightQuery] *)

Section HighlightMore.
Import JS RegExp SearchPage.
Local Open Scope N_scope.
Variable canonicalize : N -> N.

(** X12: when the query occurs nowhere in the text, up to case, the text
    is returned unchanged, provided the query is not longer than the
    compiler takes. *)
Theorem highlightQuery_without_occurrence text query :
  N.of_nat (List.length query) <= max_text_length ->
  N.of_nat (List.length text) <= max_string_length ->
  (forall k, prefix_ci canonicalize query (skipn k text) = false) ->
  highlightQuery canonicalize text query = Normal text.
Proof.
  intros Hq Ht Hno.
  destruct (forallb is_trimmable query) eqn:Hb.
  - unfold highlightQuery. now rewrite trim_truthy, Hb.
  - rewrite (@highlightQuery_value canonicalize text query Hb)
      by (unfold max_text_length, max_string_length in *; lia).
    apply N.leb_le in Hq. rewrite N.leb_antisym in Hq.
    apply negb_true_iff in Hq. rewrite Hq.
    assert (Hsame : mark_all canonicalize query text 0 = text).
    { clear -Hno. induction text as [|c text IH]; [reflexivity|].
      cbn [mark_all].
      rewrite (Hno 0%nat : prefix_ci _ _ (c :: text) = false).
      f_equal. apply IH. intros k. apply (Hno (S k)). }
    rewrite Hsame. unfold new_string, fits.
    apply N.leb_le in Ht. now rewrite Ht.
Qed.

Lemma prefix_ci_firstn q : forall text,
  prefix_ci canonicalize q text = true ->
  prefix_ci canonicalize q (firstn (List.length q) text) = true.
Proof.
  induction q as [|x q IH]; intros text Hp; [reflexivity|].
  destruct text as [|y text]; [discriminate|].
  cbn [prefix_ci] in Hp. apply andb_prop in Hp as [Hxy Hp].
  cbn [List.length firstn prefix_ci]. rewrite Hxy. now apply IH.
Qed.

Lemma mark_all_pieces query : query <> [] -> forall text skip,
  exists pieces,
    pieces_text pieces = skipn skip text
    /\ pieces_marked pieces = mark_all canonicalize query text skip
    /\ forallb (piece_matches canonicalize query) pieces = true.
Proof.
  intros Hq. induction text as [|c text IH]; intros skip.
  - exists []. rewrite skipn_nil. now repeat split.
  - cbn [mark_all]. destruct skip as [|n].
    + destruct (prefix_ci canonicalize query (c :: text)) eqn:Hp.
      * destruct (IH (List.length query - 1)%nat) as (ps & Ht & Hm & Hf).
        exists ((true, firstn (List.length query) (c :: text)) :: ps).
        pose proof (prefix_ci_length _ _ _ Hp) as Hlen.
        pose proof (prefix_ci_firstn _ _ Hp) as Hpf.
        destruct query as [|a q]; [contradiction|].
        cbn [List.length Nat.sub] in *. rewrite Nat.sub_0_r in *.
        repeat split.
        -- unfold pieces_text in *. cbn [flat_map snd]. rewrite Ht.
           change (skipn (List.length q) text)
             with (skipn (S (List.length q)) (c :: text)).
           apply firstn_skipn.
        -- unfold pieces_marked in *. cbn [flat_map fst snd]. now rewrite Hm.
        -- cbn [forallb piece_matches fst snd]. rewrite Hf, andb_true_r.
           apply andb_true_iff. split.
           ++ apply Nat.eqb_eq. rewrite length_firstn. cbn [List.length]. lia.
           ++ exact Hpf.
      * destruct (IH 0%nat) as (ps & Ht & Hm & Hf).
        exists ((false, [c]) :: ps). repeat split.
        -- unfold pieces_text in *. cbn [flat_map snd app]. now rewrite Ht.
        -- unfold pieces_marked in *. cbn [flat_map fst snd app].
           now rewrite Hm.
        -- exact Hf.
    + destruct (IH n) as (ps & Ht & Hm & Hf). now exists ps.
Qed.

(** The marked text fits in a string when the text is at most a
    fortieth of the longest string. *)
Lemma marked_text_fits text query :
  query <> [] ->
  40 * N.of_nat (List.length text) <= max_string_length ->
  new_string (mark_all canonicalize query text 0)
  = Normal (mark_all canonicalize query text 0).
Proof.
  intros Hq Ht. unfold new_string, fits.
  pose proof (@length_mark_all canonicalize query Hq text 0%nat) as Hlen.
  replace (N.of_nat (List.length (mark_all canonicalize query text 0))
           <=? max_string_length) with true; [reflexivity|].
  symmetry. apply N.leb_le. lia.
Qed.

(** X13: [highlightQuery] only inserts [mark] tags, for a query that is
    not longer than the compiler takes and a text whose marked form fits
    in a string.  The text can be cut into pieces so that the result is
    those pieces in order with some of them between the tags; every piece
    between tags has the length of the query and equals it up to case; no
    code unit of the text is dropped, changed or escaped. *)
Theorem highlightQuery_only_inserts_marks text query :
  N.of_nat (List.length query) <= max_text_length ->
  40 * N.of_nat (List.length text) <= max_string_length ->
  exists pieces,
    pieces_text pieces = text
    /\ highlightQuery canonicalize text query = Normal (pieces_marked pieces)
    /\ forallb (piece_matches canonicalize query) pieces = true.
Proof.
  intros Hlq Hlt.
  destruct (forallb is_trimmable query) eqn:Hb.
  - exists [(false, text)]. unfold pieces_text, pieces_marked.
    cbn [flat_map fst snd]. rewrite !app_nil_r. repeat split.
    unfold highlightQuery. now rewrite trim_truthy, Hb.
  - assert (Hq : query <> []) by (intros ->; discriminate Hb).
    destruct (mark_all_pieces Hq text 0) as (ps & Ht & Hm & Hf).
    exists ps.
    rewrite (@highlightQuery_value canonicalize text query Hb)
      by (unfold max_text_length, max_string_length in *; lia).
    apply N.leb_le in Hlq. rewrite N.leb_antisym in Hlq.
    apply negb_true_iff in Hlq. rewrite Hlq.
    rewrite marked_text_fits by assumption.
    repeat split; [exact Ht|now rewrite Hm|exact Hf].
Qed.

Lemma prefix_ci_same_case q : forall q' text,
  List.map canonicalize q = List.map canonicalize q' ->
  prefix_ci canonicalize q text = prefix_ci canonicalize q' text.
Proof.
  induction q as [|c q IH]; intros [|c' q'] text H; try discriminate;
    [reflexivity|].
  cbn [List.map] in H. injection H as Hc Hq.
  destruct text as [|d text]; [reflexivity|].
  cbn [prefix_ci]. now rewrite Hc, (IH q' text Hq).
Qed.

(** X14: only the case-folded query matters: two queries that are not
    blank and agree up to case give the same result on every text, be it
    the marked text or the error of a query too long for the compiler.
    The queries are short enough for their escaped form to fit in a
    string. *)
Theorem highlightQuery_ignores_the_case_of_the_query text q q' :
  forallb is_trimmable q = false ->
  forallb is_trimmable q' = false ->
  List.map canonicalize q = List.map canonicalize q' ->
  2 * N.of_nat (List.length q) + 2 <= max_string_length ->
  highlightQuery canonicalize text q = highlightQuery canonicalize text q'.
Proof.
  intros Hb Hb' Hc Hfit.
  assert (Hlen : List.length q = List.length q').
  { apply (f_equal (@List.length N)) in Hc. now rewrite !length_map in Hc. }
  rewrite (@highlightQuery_value canonicalize text q Hb Hfit).
  rewrite (@highlightQuery_value canonicalize text q' Hb')
    by (now rewrite <- Hlen).
  rewrite <- Hlen.
  assert (Hsame : forall skip,
            mark_all canonicalize q text skip
            = mark_all canonicalize q' text skip).
  { induction text as [|c text IH]; intros skip; [reflexivity|].
    cbn [mark_all]. destruct skip; [|apply IH].
    rewrite (prefix_ci_same_case q q' (c :: text) Hc), Hlen.
    now rewrite !IH. }
  now rewrite Hsame.
Qed.


End HighlightMore.

Lemma highlightQuery_without_occurrence_witness :
  SearchPage.highlightQuery SearchPage.ascii_upper (JS.lit "see you at 7")
    (JS.lit "dinner")
  = JS.Normal (JS.lit "see you at 7").
Proof.
  apply highlightQuery_without_occurrence.
  - now vm_compute.
  - now vm_compute.
  - intros k. do 13 (destruct k as [|k]; [reflexivity|]).
    destruct k; reflexivity.
Defined.

Lemma highlightQuery_only_inserts_marks_witness :
  exists pieces,
    SearchPage.pieces_text pieces = JS.lit "Dinner at 7"
    /\ SearchPage.highlightQuery SearchPage.ascii_upper (JS.lit "Dinner at 7")
         (JS.lit "dinner")
       = JS.Normal (SearchPage.pieces_marked pieces)
    /\ forallb (SearchPage.piece_matches SearchPage.ascii_upper
                  (JS.lit "dinner")) pieces = true.
Proof.
  apply highlightQuery_only_inserts_marks; now vm_compute.
Defined.

Lemma highlightQuery_ignores_the_case_of_the_query_witness :
  SearchPage.highlightQuery SearchPage.ascii_upper (JS.lit "Dinner at 7") (JS.lit "dinner")
  = SearchPage.highlightQuery SearchPage.ascii_upper (JS.lit "Dinner at 7") (JS.lit "DINNER").
Proof.
  apply highlightQuery_ignores_the_case_of_the_query;
    [reflexivity|reflexivity|reflexivity|now vm_compute].
Defined.


(** ** More on the conversation browser *)

Section ConversationsMore.
Import JS Http ConversationsPage.
Variable number : Type.

Lemma conversations_step_error (p : Page number) e :
  error (state p) = Some load_error /\ isLoading (state p) = false ->
  error (state (step p e)) = Some load_error
  /\ isLoading (state (step p e)) = false.
Proof.
  intros [He Hl]. destruct e as [|i o]; cbn [step].
  - now split.
  - unfold settle. destruct (nth_error (pending p) i); [|now split].
    destruct (try_data o); cbn [state error isLoading]; now split.
Qed.

Lemma conversations_step_inv (p : Page number) e :
  error (state p) = None
  \/ (error (state p) = Some load_error /\ isLoading (state p) = false) ->
  error (state (step p e)) = None
  \/ (error (state (step p e)) = Some load_error
      /\ isLoading (state (step p e)) = false).
Proof.
  intros [H|H]; [|right; now apply conversations_step_error].
  destruct e as [|i o]; cbn [step].
  - now left.
  - unfold settle. destruct (nth_error (pending p) i); [|now left].
    destruct (try_data o); cbn [state error isLoading]; [now left|now right].
Qed.

(** X15: an error is never cleared.  Once a fetch has failed on the
    mounted page, every later page shows the error panel, also after a
    retry that succeeds. *)
Theorem conversations_error_is_never_cleared es1 es2 :
  let p := run (mounted number) es1 in
  error (state p) <> None ->
  render (state (run p es2)) = ErrorPanel load_error
  /\ error (state (run p es2)) = Some load_error.
Proof.
  intros p Herr.
  assert (Hinv : error (state p) = None
                 \/ (error (state p) = Some load_error
                     /\ isLoading (state p) = false)).
  { subst p. clear Herr. induction es1 as [|e es IH] using rev_ind.
    - now left.
    - unfold run in *. rewrite fold_left_app. cbn [fold_left].
      now apply conversations_step_inv. }
  destruct Hinv as [H|H]; [contradiction|].
  assert (H2 : error (state (run p es2)) = Some load_error
               /\ isLoading (state (run p es2)) = false).
  { clear Herr. clearbody p. revert p H.
    induction es2 as [|e es IH]; intros p H; [exact H|].
    cbn [run fold_left]. apply IH. now apply conversations_step_error. }
  destruct H2 as [He Hl]. split; [|exact He].
  unfold render. now rewrite Hl, He.
Qed.

Lemma conversations_step_idle (p : Page number) e :
  isLoading (state p) = false -> isLoading (state (step p e)) = false.
Proof.
  intros Hl. destruct e as [|i o]; cbn [step]; [exact Hl|].
  unfold settle. destruct (nth_error (pending p) i); [|exact Hl].
  now destruct (try_data o).
Qed.

(** X16: once the page is no longer loading it never shows the skeleton
    again: a click on Retry issues one more request and leaves what is
    rendered as it was. *)
Theorem retry_never_shows_the_skeleton (p : Page number) es :
  isLoading (state p) = false ->
  render (state (run p es)) <> Skeleton
  /\ List.length (pending (step (run p es) ClickRetry))
     = S (List.length (pending (run p es)))
  /\ render (state (step (run p es) ClickRetry)) = render (state (run p es)).
Proof.
  intros Hl.
  assert (H : isLoading (state (run p es)) = false).
  { revert p Hl. induction es as [|e es IH]; intros p Hl; [exact Hl|].
    cbn [run fold_left]. apply IH. now apply conversations_step_idle. }
  split; [|split].
  - unfold render. rewrite H. destruct (error _) as [e|].
    + destruct (truthy e); [discriminate|]. now destruct (conversations _).
    + now destruct (conversations _).
  - cbn [step fetchConversations pending]. rewrite length_app. cbn. lia.
  - reflexivity.
Qed.

Lemma join_empty sep items :
  sep <> [] -> join sep items = [] -> items = [] \/ items = [[]].
Proof.
  intros Hs. destruct items as [|x [|y l]]; cbn [join].
  - now left.
  - intros ->. now right.
  - intros H. apply app_eq_nil in H as [_ H].
    apply app_eq_nil in H as [H _]. contradiction.
Qed.

(** X17: the heading of a card is empty exactly when the display name
    is empty and the participants are none or a single empty one. *)
Theorem card_title_is_empty_only_without_names (c : Conversation number) :
  card_title c = [] <->
  display_name c = []
  /\ (participants c = [] \/ participants c = [[]]).
Proof.
  unfold card_title. split.
  - destruct (display_name c) as [|a l] eqn:Hd; cbn [truthy].
    + intros H. split; [reflexivity|].
      apply (join_empty (sep := lit ", ")); [discriminate|exact H].
    + discriminate.
  - intros [-> [-> | ->]]; reflexivity.
Qed.

Section FormatDateFacts.
Variable Date_parse : jsstring -> option Z.
Local Open Scope Z_scope.

Lemma integer_to_string_negative d :
  d < 0 -> exists digits, integer_to_string d = 45%N :: digits.
Proof.
  destruct d as [|q|q]; try lia. intros _. unfold integer_to_string.
  cbn [Z.to_int]. eexists. reflexivity.
Qed.

(** X18: a date that is not in the past still gets an "ago" label: a
    string that is no date gives "NaN years ago", and a date later than
    the clock gives a negative count, "-N days ago", never "Today". *)
Theorem formatDate_of_a_date_not_in_the_past now s :
  match Date_parse s with
  | None => formatDate Date_parse now s = lit "NaN years ago"
  | Some t =>
    if now <? t then
      exists digits,
        formatDate Date_parse now s = 45%N :: digits ++ lit " days ago"
        /\ integer_to_string ((now - t) / 86400000) = 45%N :: digits
        /\ (now - t) / 86400000 <= -1
    else True
  end.
Proof.
  unfold formatDate. destruct (Date_parse s) as [t|]; [|reflexivity].
  destruct (now <? t) eqn:Hlt; [|exact I]. apply Z.ltb_lt in Hlt.
  change (1000 * 60 * 60 * 24) with 86400000.
  set (d := (now - t) / 86400000).
  assert (Hd : d <= -1).
  { subst d. apply Z.lt_succ_r. apply Z.div_lt_upper_bound; lia. }
  destruct (integer_to_string_negative (d := d)) as [digits Hs]; [lia|].
  exists digits.
  replace (d =? 0) with false by (symmetry; apply Z.eqb_neq; lia).
  replace (d =? 1) with false by (symmetry; apply Z.eqb_neq; lia).
  replace (d <? 7) with true by (symmetry; apply Z.ltb_lt; lia).
  rewrite Hs. repeat split. exact Hd.
Qed.

(** X19: the label of a date that is not later than the clock, by whole
    days elapsed [d]: "Today" for 0, "Yesterday" for 1, [d] days up to 6,
    then whole weeks up to 4 (below 30 days), whole months of 30 days up to
    12 (below 365 days), then whole years of 365 days; the unit is plural
    also for a count of 1. *)
Theorem formatDate_of_a_past_date now s t :
  Date_parse s = Some t ->
  t <= now ->
  let d := (now - t) / 86400000 in
  let shown := formatDate Date_parse now s in
  0 <= d
  /\ ((d = 0 /\ shown = lit "Today")
      \/ (d = 1 /\ shown = lit "Yesterday")
      \/ (2 <= d <= 6 /\ shown = integer_to_string d ++ lit " days ago")
      \/ (exists n, 1 <= n <= 4 /\ 7 * n <= d < 7 * n + 7 /\ d < 30
                    /\ shown = integer_to_string n ++ lit " weeks ago")
      \/ (exists n, 1 <= n <= 12 /\ 30 * n <= d < 30 * n + 30 /\ d < 365
                    /\ shown = integer_to_string n ++ lit " months ago")
      \/ (exists n, 1 <= n /\ 365 * n <= d < 365 * n + 365
                    /\ shown = integer_to_string n ++ lit " years ago")).
Proof.
  intros Hp Hle d shown. subst shown. unfold formatDate. rewrite Hp.
  change (1000 * 60 * 60 * 24) with 86400000. fold d.
  assert (Hd : 0 <= d) by (subst d; apply Z.div_pos; lia).
  split; [exact Hd|]. clearbody d.
  destruct (d =? 0) eqn:H0; [apply Z.eqb_eq in H0; now left|].
  destruct (d =? 1) eqn:H1; [apply Z.eqb_eq in H1; right; now left|].
  apply Z.eqb_neq in H0, H1.
  destruct (d <? 7) eqn:H7.
  { apply Z.ltb_lt in H7. right. right. left. split; [lia|reflexivity]. }
  apply Z.ltb_ge in H7.
  destruct (d <? 30) eqn:H30.
  { apply Z.ltb_lt in H30. right. right. right. left. exists (d / 7).
    pose proof (Z.div_mod d 7 ltac:(lia)).
    pose proof (Z.mod_pos_bound d 7 ltac:(lia)).
    repeat split; try lia. }
  apply Z.ltb_ge in H30.
  destruct (d <? 365) eqn:H365.
  { apply Z.ltb_lt in H365. right. right. right. right. left. exists (d / 30).
    pose proof (Z.div_mod d 30 ltac:(lia)).
    pose proof (Z.mod_pos_bound d 30 ltac:(lia)).
    repeat split; try lia. }
  apply Z.ltb_ge in H365.
  right. right. right. right. right. exists (d / 365).
  pose proof (Z.div_mod d 365 ltac:(lia)).
  pose proof (Z.mod_pos_bound d 365 ltac:(lia)).
  repeat split; try lia.
Qed.
End FormatDateFacts.
End ConversationsMore.


Example formatDate_examples :
  let parse := fun _ : JS.jsstring => Some 0%Z in
  let day := 86400000%Z in
  List.map (fun now => ConversationsPage.formatDate parse now (JS.lit "x"))
    [0; day - 1; day; 6 * day; 7 * day; 29 * day; 30 * day; 364 * day;
     365 * day; 800 * day; -1; -3 * day]%Z
  = List.map JS.lit
      ["Today"; "Today"; "Yesterday"; "6 days ago"; "1 weeks ago";
       "4 weeks ago"; "1 months ago"; "12 months ago"; "1 years ago";
       "2 years ago"; "-1 days ago"; "-3 days ago"]%string.
Proof. vm_compute. reflexivity. Qed.

Section ConversationsWitnesses.
Import JS Http ConversationsPage.

Lemma conversations_error_is_never_cleared_witness :
  let ok := Response true
              (Some {| data_conversations :=
                         Some [{| id := lit "1"; display_name := lit "Sam";
                                  participants := [lit "+15550100"];
                                  message_count := 3%Z;
                                  last_message_date := lit "2024-03-01";
                                  is_group := false |}] |}) in
  render (state (run (run (mounted Z) [Settle 0 NetworkError])
                     [ClickRetry; Settle 0 ok]))
  = ErrorPanel load_error.
Proof.
  intros ok.
  apply (@conversations_error_is_never_cleared Z [Settle 0 NetworkError]
           [ClickRetry; Settle 0 ok]).
  discriminate.
Defined.

Lemma retry_never_shows_the_skeleton_witness :
  let p := run (mounted Z) [Settle 0 NetworkError] in
  render (state (run p [ClickRetry])) <> Skeleton.
Proof.
  intros p.
  apply (@retry_never_shows_the_skeleton Z p [ClickRetry]). reflexivity.
Defined.

Lemma formatDate_of_a_past_date_witness :
  let parse := fun _ : jsstring => Some 0%Z in
  let now := (29 * 86400000)%Z in
  let d := ((now - 0) / 86400000)%Z in
  let shown := formatDate parse now (lit "1970-01-01") in
  (0 <= d
   /\ ((d = 0 /\ shown = lit "Today")
       \/ (d = 1 /\ shown = lit "Yesterday")
       \/ (2 <= d <= 6 /\ shown = integer_to_string d ++ lit " days ago")
       \/ (exists n, 1 <= n <= 4 /\ 7 * n <= d < 7 * n + 7 /\ d < 30
                     /\ shown = integer_to_string n ++ lit " weeks ago")
       \/ (exists n, 1 <= n <= 12 /\ 30 * n <= d < 30 * n + 30 /\ d < 365
                     /\ shown = integer_to_string n ++ lit " months ago")
       \/ (exists n, 1 <= n /\ 365 * n <= d < 365 * n + 365
                     /\ shown = integer_to_string n ++ lit " years ago")))%Z.
Proof.
  intros parse now d shown.
  apply (@formatDate_of_a_past_date parse now (lit "1970-01-01") 0%Z).
  - reflexivity.
  - discriminate.
Defined.

End ConversationsWitnesses.

(** ** More on the date conversion *)

Section TimestampMore.
Import Timestamp.
Local Open Scope Z_scope.

(** X20: the conversion keeps the order of timestamps. *)
Theorem to_unixepoch_keeps_the_order d1 d2 :
  d1 <= d2 -> to_unixepoch d1 <= to_unixepoch d2.
Proof.
  intros H. unfold to_unixepoch.
  apply Z.add_le_mono_r. apply Z.quot_le_mono; lia.
Qed.

(** X21: the conversion drops the part below a second toward the
    origin of the archive's epoch: the result is off by less than a second
    and never farther from the origin than the raw value, and the raw
    values that give the origin itself are exactly those within one second
    either side of zero. *)
Theorem to_unixepoch_truncates_toward_the_origin d :
  Z.abs (d - (to_unixepoch d - 978307200) * 1000000000) < 1000000000
  /\ Z.abs ((to_unixepoch d - 978307200) * 1000000000) <= Z.abs d
  /\ (to_unixepoch d = 978307200 <-> -1000000000 < d < 1000000000).
Proof.
  unfold to_unixepoch.
  Z.to_euclidean_division_equations; lia.
Qed.
Lemma to_unixepoch_keeps_the_order_witness :
  to_unixepoch (-1) <= to_unixepoch 999999999.
Proof. apply to_unixepoch_keeps_the_order. lia. Defined.

End TimestampMore.

(** ** Citations on the chat page *)

Section ChatCitations.
Import JS Http VDom ChatPage.

Lemma step_keeps_plain_questions p e :
  Forall (fun m => role m = user -> sources m = None) (messages (state p)) ->
  Forall (fun m => role m = user -> sources m = None)
    (messages (state (step p e))).
Proof.
  intros H.
  assert (Hs : Forall (fun m => role m = user -> sources m = None)
                 (messages (state (sendMessage p)))).
  { unfold sendMessage. destruct (send_blocked (state p)); [exact H|].
    cbn [state messages]. apply Forall_app. split; [exact H|].
    now repeat constructor. }
  destruct e as [v|k sh| |i o]; cbn [step].
  - exact H.
  - unfold handleKeyPress. now destruct (_ && _).
  - exact Hs.
  - unfold settle. destruct (nth_error (pending p) i); [|exact H].
    cbn [state messages]. apply Forall_app. split; [exact H|].
    constructor; [|constructor]. rewrite reply_role. discriminate.
Qed.

(** X22: on a reachable page no user message renders a citation block,
    and neither does the reply of a failed call: citations appear only
    under answers that came from the server. *)
Theorem questions_and_error_replies_show_no_citations p :
  reachable p ->
  Forall (fun m => role m = user -> renderSources m = []) (messages (state p))
  /\ forall o, try_data o = None -> renderSources (reply o) = [].
Proof.
  intros [es ->]. split.
  - assert (H : Forall (fun m => role m = user -> sources m = None)
                  (messages (state (run initial es)))).
    { induction es as [|e es IH] using rev_ind; [constructor|].
      rewrite run_snoc. now apply step_keeps_plain_questions. }
    eapply Forall_impl; [|exact H]. cbn beta. intros m Hm Hu.
    unfold renderSources. now rewrite (Hm Hu).
  - intros o Ho. unfold reply. now rewrite Ho.
Qed.
Lemma questions_and_error_replies_show_no_citations_witness :
  let p := run initial [Change (lit "hi"); ClickSend;
                        Settle 0 (Response false None)] in
  Forall (fun m => role m = user -> renderSources m = []) (messages (state p))
  /\ forall o, try_data o = None -> renderSources (reply o) = [].
Proof.
  intros p. apply (@questions_and_error_replies_show_no_citations p).
  eexists; reflexivity.
Defined.

End ChatCitations.

(** ** The search URL and the query *)

Section Injective.
Import JS.
Local Open Scope N_scope.


Ltac arith := zify; Z.to_euclidean_division_equations; lia.

Lemma hex_value_digit d : d < 16 -> hex_value (hex_digit d) = d.
Proof.
  intros H. unfold hex_value, hex_digit.
  destruct (d <? 10) eqn:Hd.
  - apply N.ltb_lt in Hd.
    replace (48 + d <? 58) with true by (symmetry; apply N.ltb_lt; lia). lia.
  - apply N.ltb_ge in Hd.
    replace (55 + d <? 58) with false by (symmetry; apply N.ltb_ge; lia). lia.
Qed.

Lemma read_percent_octet b rest :
  b < 256 -> read_octet (percent_octet b ++ rest) = Some (b, rest).
Proof.
  intros H. unfold percent_octet, read_octet. cbn [app N.eqb Pos.eqb].
  rewrite !hex_value_digit by arith.
  do 2 f_equal. arith.
Qed.

Lemma decode_unit_escape b r :
  decode_unit (percent_octet b ++ r)
  = match read_octet (percent_octet b ++ r) with
    | None => None
    | Some (b1, r1) =>
      if b1 <? 128 then Some ([b1], r1)
      else
        match read_octet r1 with
        | None => None
        | Some (b2, r2) =>
          if b1 <? 224 then Some ([(b1 - 192) * 64 + (b2 - 128)], r2)
          else
            match read_octet r2 with
            | None => None
            | Some (b3, r3) =>
              if b1 <? 240 then
                Some ([(b1 - 224) * 4096 + (b2 - 128) * 64 + (b3 - 128)], r3)
              else
                match read_octet r3 with
                | None => None
                | Some (b4, r4) =>
                  let v := (b1 - 240) * 262144 + (b2 - 128) * 4096
                           + (b3 - 128) * 64 + (b4 - 128) in
                  Some ([55296 + (v - 65536) / 1024;
                         56320 + (v - 65536) mod 1024], r4)
                end
            end
        end
    end.
Proof. reflexivity. Qed.

Lemma decode_unit_plain c rest :
  (c =? 37) = false -> decode_unit (c :: rest) = Some ([c], rest).
Proof. intros H. unfold decode_unit. now rewrite H. Qed.

Lemma decode_unit_percent v rest :
  v < 65536 ->
  decode_unit (percent_encode v ++ rest) = Some ([v], rest).
Proof.
  intros H. unfold percent_encode, utf8_octets.
  destruct (v <? 128) eqn:H1.
  { apply N.ltb_lt in H1. cbn [flat_map]. rewrite app_nil_r.
    rewrite decode_unit_escape, read_percent_octet by lia.
    now replace (v <? 128) with true by (symmetry; apply N.ltb_lt; lia). }
  apply N.ltb_ge in H1.
  destruct (v <? 2048) eqn:H2.
  { apply N.ltb_lt in H2. cbn [flat_map]. rewrite app_nil_r, <- app_assoc.
    set (b1 := 192 + v / 64). set (b2 := 128 + v mod 64).
    assert (Hb1 : 194 <= b1 < 224) by (subst b1; arith).
    assert (Hb2 : 128 <= b2 < 192) by (subst b2; arith).
    rewrite decode_unit_escape, read_percent_octet by lia.
    replace (b1 <? 128) with false by (symmetry; apply N.ltb_ge; lia).
    rewrite read_percent_octet by lia.
    replace (b1 <? 224) with true by (symmetry; apply N.ltb_lt; lia).
    do 3 f_equal. subst b1 b2. arith. }
  apply N.ltb_ge in H2.
  replace (v <? 65536) with true by (symmetry; apply N.ltb_lt; lia).
  cbn [flat_map]. rewrite app_nil_r, <- !app_assoc.
  set (b1 := 224 + v / 4096). set (b2 := 128 + (v / 64) mod 64).
  set (b3 := 128 + v mod 64).
  assert (Hb1 : 224 <= b1 < 240) by (subst b1; arith).
  assert (Hb2 : 128 <= b2 < 192) by (subst b2; arith).
  assert (Hb3 : 128 <= b3 < 192) by (subst b3; arith).
  rewrite decode_unit_escape, read_percent_octet by lia.
  replace (b1 <? 128) with false by (symmetry; apply N.ltb_ge; lia).
  rewrite read_percent_octet by lia.
  replace (b1 <? 224) with false by (symmetry; apply N.ltb_ge; lia).
  rewrite read_percent_octet by lia.
  replace (b1 <? 240) with true by (symmetry; apply N.ltb_lt; lia).
  do 3 f_equal. subst b1 b2 b3. arith.
Qed.

Lemma decode_unit_pair c d rest :
  is_high_surrogate c = true -> is_low_surrogate d = true ->
  decode_unit
    (percent_encode ((c - 55296) * 1024 + (d - 56320) + 65536) ++ rest)
  = Some ([c; d], rest).
Proof.
  unfold is_high_surrogate, is_low_surrogate.
  rewrite !andb_true_iff, !N.leb_le. intros Hc Hd.
  set (v := (c - 55296) * 1024 + (d - 56320) + 65536).
  assert (Hv : 65536 <= v < 1114112) by (subst v; lia).
  unfold percent_encode, utf8_octets.
  replace (v <? 128) with false by (symmetry; apply N.ltb_ge; lia).
  replace (v <? 2048) with false by (symmetry; apply N.ltb_ge; lia).
  replace (v <? 65536) with false by (symmetry; apply N.ltb_ge; lia).
  cbn [flat_map]. rewrite app_nil_r, <- !app_assoc.
  set (b1 := 240 + v / 262144). set (b2 := 128 + (v / 4096) mod 64).
  set (b3 := 128 + (v / 64) mod 64). set (b4 := 128 + v mod 64).
  assert (Hb1 : 240 <= b1 < 248) by (subst b1; arith).
  assert (Hb2 : 128 <= b2 < 192) by (subst b2; arith).
  assert (Hb3 : 128 <= b3 < 192) by (subst b3; arith).
  assert (Hb4 : 128 <= b4 < 192) by (subst b4; arith).
  rewrite decode_unit_escape, read_percent_octet by lia.
  replace (b1 <? 128) with false by (symmetry; apply N.ltb_ge; lia).
  rewrite read_percent_octet by lia.
  replace (b1 <? 224) with false by (symmetry; apply N.ltb_ge; lia).
  rewrite read_percent_octet by lia.
  replace (b1 <? 240) with false by (symmetry; apply N.ltb_ge; lia).
  rewrite read_percent_octet by lia.
  cbv zeta.
  assert (Hback : (b1 - 240) * 262144 + (b2 - 128) * 4096 + (b3 - 128) * 64
                  + (b4 - 128) = v) by (subst b1 b2 b3 b4; arith).
  rewrite Hback.
  assert (Hsplit : v - 65536 = (d - 56320) + (c - 55296) * 1024)
    by (subst v; lia).
  rewrite Hsplit, N.div_add, N.Div0.mod_add by discriminate.
  rewrite N.div_small, N.mod_small by lia.
  do 3 f_equal; [|f_equal]; lia.
Qed.

Lemma decode_step f e :
  e <> [] ->
  decode (S f) e
  = match decode_unit e with
    | Some (u, rest) => option_map (app u) (decode f rest)
    | None => None
    end.
Proof. destruct e; [contradiction|reflexivity]. Qed.

Lemma percent_encode_length v : (3 <= List.length (percent_encode v))%nat.
Proof.
  unfold percent_encode, utf8_octets.
  destruct (v <? 128); [cbn; lia|].
  destruct (v <? 2048); [cbn; lia|].
  destruct (v <? 65536); cbn; lia.
Qed.

Lemma decode_encode s : forall e fuel,
  forallb (fun c => c <? 65536) s = true ->
  encodeURIComponent s = Some e ->
  (List.length e < fuel)%nat ->
  decode fuel e = Some s.
Proof.
  remember (List.length s) as n eqn:Hn.
  revert s Hn. induction n as [n IH] using lt_wf_ind.
  intros s Hn e fuel Hs He Hf.
  destruct fuel as [|f]; [lia|].
  destruct s as [|c s]; [now injection He as <-|].
  cbn [forallb] in Hs. apply andb_prop in Hs as [Hc Hs].
  apply N.ltb_lt in Hc.
  cbn [encodeURIComponent] in He.
  destruct (is_uri_unreserved c) eqn:Hu.
  - destruct (encodeURIComponent s) as [e'|] eqn:He'; [|discriminate].
    injection He as <-. cbn [List.length] in Hf.
    rewrite decode_step by discriminate.
    rewrite decode_unit_plain.
    + rewrite (IH (List.length s) ltac:(subst n; cbn; lia) s eq_refl e' f
                 Hs He') by lia.
      reflexivity.
    + apply N.eqb_neq. intros ->. discriminate Hu.
  - destruct (is_low_surrogate c) eqn:Hlow; [discriminate|].
    destruct (is_high_surrogate c) eqn:Hhigh.
    + destruct s as [|d s]; [discriminate|].
      destruct (is_low_surrogate d) eqn:Hd; [|discriminate].
      destruct (encodeURIComponent s) as [e'|] eqn:He'; [|discriminate].
      injection He as <-. cbn [forallb] in Hs.
      apply andb_prop in Hs as [_ Hs].
      rewrite length_app in Hf.
      pose proof (percent_encode_length
                    ((c - 55296) * 1024 + (d - 56320) + 65536)) as Hl.
      rewrite decode_step
        by (intros H; apply (f_equal (@List.length N)) in H;
            rewrite length_app in H; cbn in H; lia).
      rewrite decode_unit_pair by assumption.
      rewrite (IH (List.length s) ltac:(subst n; cbn; lia) s eq_refl e' f
                 Hs He') by lia.
      reflexivity.
    + destruct (encodeURIComponent s) as [e'|] eqn:He'; [|discriminate].
      injection He as <-. rewrite length_app in Hf.
      pose proof (percent_encode_length c) as Hl.
      rewrite decode_step
        by (intros H; apply (f_equal (@List.length N)) in H;
            rewrite length_app in H; cbn in H; lia).
      rewrite decode_unit_percent by exact Hc.
      rewrite (IH (List.length s) ltac:(subst n; cbn; lia) s eq_refl e' f
                 Hs He') by lia.
      reflexivity.
Qed.

(** [encodeURIComponent] loses nothing: strings of code units with the
    same encoding are equal. *)
Lemma encodeURIComponent_injective s1 s2 e :
  forallb (fun c => c <? 65536) s1 = true ->
  forallb (fun c => c <? 65536) s2 = true ->
  encodeURIComponent s1 = Some e ->
  encodeURIComponent s2 = Some e ->
  s1 = s2.
Proof.
  intros H1 H2 E1 E2.
  pose proof (decode_encode s1 (fuel := S (List.length e)) H1 E1
                ltac:(lia)) as D1.
  pose proof (decode_encode s2 (fuel := S (List.length e)) H2 E2
                ltac:(lia)) as D2.
  congruence.
Qed.
End Injective.

Section SearchUrl.
Import JS Http SearchPage.
Variable number : Type.

(** X23: the URL of a search determines the query: two searches that
    issue requests with the same URL were made for the same query, code
    unit for code unit, untrimmed. *)
Theorem search_url_determines_the_query (p1 p2 : Page number) r1 r2 :
  forallb (fun c => c <? 65536)%N (query (state p1)) = true ->
  forallb (fun c => c <? 65536)%N (query (state p2)) = true ->
  pending (search p1) = pending p1 ++ [r1] ->
  pending (search p2) = pending p2 ++ [r2] ->
  url r1 = url r2 ->
  query (state p1) = query (state p2).
Proof.
  assert (Hurl : forall (p : Page number) r,
            pending (search p) = pending p ++ [r] ->
            exists e, encodeURIComponent (query (state p)) = Some e
                      /\ url r = origin ++ lit "/search?query=" ++ e
                                 ++ lit "&limit=20").
  { intros p r. unfold search.
    assert (Hno : pending p <> pending p ++ [r]).
    { intros H. apply (f_equal (@List.length _)) in H.
      rewrite length_app in H. cbn in H. lia. }
    destruct (negb _); [intros H; now elim Hno|].
    destruct (encodeURIComponent (query (state p))) as [e|];
      cbn [pending]; [|intros H; now elim Hno].
    intros H. apply app_inv_head in H. injection H as <-.
    now exists e. }
  intros H1 H2 Hp1 Hp2 Hu.
  destruct (Hurl p1 r1 Hp1) as (e1 & E1 & U1).
  destruct (Hurl p2 r2 Hp2) as (e2 & E2 & U2).
  rewrite U1, U2 in Hu. apply app_inv_head in Hu.
  apply app_inv_head in Hu. apply app_inv_tail in Hu. subst e2.
  exact (encodeURIComponent_injective _ _ H1 H2 E1 E2).
Qed.
End SearchUrl.

Lemma search_url_determines_the_query_witness :
  let p1 := SearchPage.onChange (JS.lit "dinner & wine")
              (SearchPage.initial (number := Z)) in
  let p2 := SearchPage.onChange (JS.lit "dinner & wine")
              (SearchPage.search
                 (SearchPage.onChange (JS.lit "lunch")
                    (SearchPage.initial (number := Z)))) in
  SearchPage.query (SearchPage.state p1)
  = SearchPage.query (SearchPage.state p2).
Proof.
  intros p1 p2.
  apply (@search_url_determines_the_query Z p1 p2
           {| SearchPage.method := Http.GET;
              SearchPage.url :=
                JS.lit "http://localhost:8000/search?query=dinner%20%26%20wine&limit=20" |}
           {| SearchPage.method := Http.GET;
              SearchPage.url :=
                JS.lit "http://localhost:8000/search?query=dinner%20%26%20wine&limit=20" |});
    reflexivity.
Defined.
